(** * DiffWithCommand.execute (src/commands/diffWith.ts)

    A shallow embedding of the command that resolves a two-sided comparison
    request and hands it to the built-in diff viewer.

    [execute] is an async method that mutates JavaScript objects and calls
    services that live outside the file.  The embedding therefore has

    - a store of objects, split in the objects that exist when the command
      is entered (the caller's) and the objects allocated by the invocation;
    - a trace of the calls made to the outside and of the moments the
      command resumes after an [await];
    - completions that are either normal or a thrown exception;
    - the outside services as one record of functions, [Collaborators]. *)

From stdpp Require Import gmap strings list.
From Stdlib Require Import NArith.

(** ** Values of the editor API *)

(** [vscode.Uri], as far as the command looks at it. *)
Record Uri := mkUri { scheme : string; fsPath : string; query : string }.

(** [vscode.ViewColumn]. *)
Inductive ViewColumn :=
| Active | Beside | One | Two | Three | Four | Five | Six | Seven | Eight | Nine.

(** [new Range(startLine, startCharacter, endLine, endCharacter)]; lines
    and characters are counted from 0. *)
Record Range := mkRange
  { startLine : N; startCharacter : N; endLine : N; endCharacter : N }.

(** The part of a file status the command reads: [status.status]. *)
Record GitStatusFile := mkStatus { status : string; fileName : string }.

(** What [catch (ex)] can receive. *)
Inductive exn :=
| TypeError (message : string)
| Failure (message : string).

(** The value behind [Promise<any>]: [None] is [undefined]. *)
Definition any := option string.

(** ** Objects and references *)

(** A reference is either to an object of the caller or to an object that
    this invocation allocated. *)
Inductive loc :=
| Caller (n : nat)
| Own (n : nat).

(** [DiffWithCommandArgsRevision].  The interface declares [sha] and [uri]
    as required, but line 94 builds [{ ...args.lhs }] from a possibly
    undefined [args.lhs] and the cast of line 97 hides it, so every field
    can be undefined in the copy. *)
Record DiffWithCommandArgsRevision := mkRevision
  { sha : option string; uri : option Uri; title : option string }.

(** [vscode.TextDocumentShowOptions]. *)
Record TextDocumentShowOptions := mkShowOptions
  { viewColumn : option ViewColumn;
    preserveFocus : option bool;
    preview : option bool;
    selection : option Range }.

(** [DiffWithCommandArgs]; the three object-valued fields hold references. *)
Record DiffWithCommandArgs := mkArgs
  { lhs : option loc;
    rhs : option loc;
    repoPath : option string;
    line : option N;
    showOptions : option loc }.

Inductive obj :=
| ORevision (r : DiffWithCommandArgsRevision)
| OShowOptions (o : TextDocumentShowOptions)
| OArgs (a : DiffWithCommandArgs).

(** The object literal [{}] at each of the three types. *)
Definition emptyRevision : DiffWithCommandArgsRevision := mkRevision None None None.
Definition emptyShowOptions : TextDocumentShowOptions := mkShowOptions None None None None.
Definition emptyArgs : DiffWithCommandArgs := mkArgs None None None None None.

(** ** Calls to the outside *)

Inductive call :=
| ResolveReference (repo : string) (ref : option string) (u : option Uri)
| GetFileStatusForCommit (repo : string) (file : string) (ref : option string)
| GetVersionedUri (repo : string) (file : string) (ref : option string)
| ExecuteDiff (left right : Uri) (label : option string) (options : TextDocumentShowOptions)
| LoggerError (ex : exn) (className : string) (method : string)
| ShowGenericErrorMessage (message : string).

(** [Invoked c]: the call is made (for an async service: its promise now
    exists and is pending).  [Settled c]: the promise of the call has
    settled and the command, which was awaiting it alone or under
    [Promise.all], goes on. *)
Inductive event :=
| Invoked (c : call)
| Settled (c : call).

Inductive outcome (A : Type) :=
| Ok (a : A)
| Thrown (e : exn).
Arguments Ok {A} a.
Arguments Thrown {A} e.

(** Everything [execute] imports and calls.  None of it is defined in
    diffWith.ts, so it is a parameter of the model.  Async services answer
    with the outcome of their promise. *)
Record Collaborators := mkCollaborators
  { (* GitService.deletedOrMissingSha *)
    deletedOrMissingSha : string;
    (* GlyphChars.ArrowLeftRightLong *)
    ArrowLeftRightLong : string;
    (* GitService.shortenSha(sha, { uncommitted: ... }); second argument:
       the [uncommitted] string when the options object is passed *)
    shortenSha : option string → option string → option string;
    (* GitService.isUncommitted(sha) *)
    isUncommitted : option string → bool;
    (* GitUri.toRevisionUri(sha, fileName, repoPath) *)
    toRevisionUri : string → string → string → Uri;
    (* paths.basename(p) *)
    basename : string → string;
    (* Container.git.resolveReference(repoPath, ref, uri) *)
    resolveReference : string → option string → option Uri → outcome string;
    (* Container.git.getFileStatusForCommit(repoPath, fileName, ref) *)
    getFileStatusForCommit :
      string → string → option string → outcome (option GitStatusFile);
    (* Container.git.getVersionedUri(repoPath, fileName, ref) *)
    getVersionedUri : string → string → option string → outcome (option Uri);
    (* commands.executeCommand(BuiltInCommands.Diff, lhs, rhs, title, options) *)
    executeDiff :
      Uri → Uri → option string → TextDocumentShowOptions → outcome any;
    (* Messages.showGenericErrorMessage(message) *)
    showGenericErrorMessage : string → outcome any;
    (* which of two promises given to Promise.all is looked at first when
       both are pending: [true] when the second settles before the first *)
    secondSettlesFirst : bool }.

(** ** State of one invocation *)

(** The local variables of [execute] once the title is assembled (line
    170).  [rhsSuffix0] is [rhsSuffix] as lines 133-147 leave it, before
    lines 149-158 run. *)
Record Locals := mkLocals
  { v_lhsSha : option string;
    v_rhsSha : option string;
    v_lhs : option Uri;
    v_rhs : option Uri;
    v_rhsSuffix0 : string;
    v_lhsSuffix : string;
    v_rhsSuffix : string;
    v_title : option string }.

(** [locals] is ghost state: it records the local variables for the
    statements below and nothing reads it. *)
Record state := mkState
  { caller : gmap nat obj;
    own : list obj;
    locals : option Locals;
    trace : list event }.

(** The state in which an invocation starts, given the caller's objects. *)
Definition enter (h : gmap nat obj) : state := mkState h [] None [].

Definition M (A : Type) : Type := state → outcome A * state.

#[global] Instance M_ret : MRet M := λ A a σ, (Ok a, σ).

#[global] Instance M_bind : MBind M := λ A B f m σ,
  match m σ with
  | (Ok a, σ') => f a σ'
  | (Thrown e, σ') => (Thrown e, σ')
  end.

Definition throw {A} (e : exn) : M A := λ σ, (Thrown e, σ).

(** A completion that is already known. *)
Definition answer {A} (r : outcome A) : M A := λ σ, (r, σ).

(** [try { m } catch (ex) { h ex }]. *)
Definition try_catch {A} (m : M A) (h : exn → M A) : M A := λ σ,
  match m σ with
  | (Ok a, σ') => (Ok a, σ')
  | (Thrown e, σ') => h e σ'
  end.

Definition record (es : list event) (σ : state) : state :=
  mkState (caller σ) (own σ) (locals σ) (trace σ ++ es).

Definition emit (e : event) : M unit := λ σ, (Ok tt, record [e] σ).

Definition observe (v : Locals) : M unit := λ σ,
  (Ok tt, mkState (caller σ) (own σ) (Some v) (trace σ)).

(** *** The store *)

Definition load (l : loc) (σ : state) : option obj :=
  match l with
  | Caller n => caller σ !! n
  | Own n => own σ !! n
  end.

Definition store (l : loc) (o : obj) : M unit := λ σ,
  match l with
  | Caller n => (Ok tt, mkState (<[n:=o]> (caller σ)) (own σ) (locals σ) (trace σ))
  | Own n => (Ok tt, mkState (caller σ) (<[n:=o]> (own σ)) (locals σ) (trace σ))
  end.

(** An object literal: a new object, distinct from every existing one. *)
Definition alloc (o : obj) : M loc := λ σ,
  (Ok (Own (length (own σ))),
   mkState (caller σ) (own σ ++ [o]) (locals σ) (trace σ)).

Definition notAnObject {A} : M A :=
  throw (TypeError "Cannot read property of undefined").

Definition revisionAt (l : loc) : M DiffWithCommandArgsRevision := λ σ,
  match load l σ with
  | Some (ORevision r) => (Ok r, σ)
  | _ => notAnObject σ
  end.

Definition showOptionsAt (l : loc) : M TextDocumentShowOptions := λ σ,
  match load l σ with
  | Some (OShowOptions o) => (Ok o, σ)
  | _ => notAnObject σ
  end.

Definition argsAt (l : loc) : M DiffWithCommandArgs := λ σ,
  match load l σ with
  | Some (OArgs a) => (Ok a, σ)
  | _ => notAnObject σ
  end.

(** [{ ...x }]: the own properties of [x], none when [x] is undefined.  A
    reference to an object of another shape contributes no property of
    this one. *)
Definition revisionOf (σ : state) (x : option loc) : DiffWithCommandArgsRevision :=
  match x with
  | Some l => match load l σ with Some (ORevision r) => r | _ => emptyRevision end
  | None => emptyRevision
  end.

Definition showOptionsOf (σ : state) (x : option loc) : TextDocumentShowOptions :=
  match x with
  | Some l => match load l σ with Some (OShowOptions o) => o | _ => emptyShowOptions end
  | None => emptyShowOptions
  end.

Definition argsOf (σ : state) (x : option loc) : DiffWithCommandArgs :=
  match x with
  | Some l => match load l σ with Some (OArgs a) => a | _ => emptyArgs end
  | None => emptyArgs
  end.

Definition spreadRevision (x : option loc) : M DiffWithCommandArgsRevision :=
  λ σ, (Ok (revisionOf σ x), σ).
Definition spreadShowOptions (x : option loc) : M TextDocumentShowOptions :=
  λ σ, (Ok (showOptionsOf σ x), σ).
Definition spreadArgs (x : option loc) : M DiffWithCommandArgs :=
  λ σ, (Ok (argsOf σ x), σ).

(** *** Property reads and writes *)

Definition get_sha (l : loc) : M (option string) := r ← revisionAt l; mret (sha r).
Definition get_uri (l : loc) : M (option Uri) := r ← revisionAt l; mret (uri r).
Definition get_title (l : loc) : M (option string) := r ← revisionAt l; mret (title r).

Definition set_sha (l : loc) (v : option string) : M unit :=
  r ← revisionAt l; store l (ORevision (mkRevision v (uri r) (title r))).

Definition set_title (l : loc) (v : option string) : M unit :=
  r ← revisionAt l; store l (ORevision (mkRevision (sha r) (uri r) v)).

Definition get_showOptions (l : loc) : M (option loc) := a ← argsAt l; mret (showOptions a).
Definition get_line (l : loc) : M (option N) := a ← argsAt l; mret (line a).

Definition set_showOptions (l : loc) (v : option loc) : M unit :=
  a ← argsAt l;
  store l (OArgs (mkArgs (lhs a) (rhs a) (repoPath a) (line a) v)).

Definition set_viewColumn (l : loc) (v : option ViewColumn) : M unit :=
  o ← showOptionsAt l;
  store l (OShowOptions (mkShowOptions v (preserveFocus o) (preview o) (selection o))).

Definition set_selection (l : loc) (v : option Range) : M unit :=
  o ← showOptionsAt l;
  store l (OShowOptions (mkShowOptions (viewColumn o) (preserveFocus o) (preview o) v)).

(** [x.fsPath] and [args.showOptions.viewColumn]: a property of
    [undefined] throws. *)
Definition fsPath_of (u : option Uri) : M string :=
  match u with Some u => mret (fsPath u) | None => notAnObject end.

Definition defined {A} (x : option A) : M A :=
  match x with Some a => mret a | None => notAnObject end.

(** *** JavaScript operators on strings *)

(** [a === b] for a possibly undefined string and a string. *)
Definition equals (a : option string) (b : string) : bool :=
  match a with Some s => String.eqb s b | None => false end.

(** A string in a condition: the empty string and [undefined] are falsy. *)
Definition truthy (a : option string) : bool :=
  match a with Some s => negb (String.eqb s "") | None => false end.

(** [a || b]. *)
Definition or_else (a b : option string) : option string :=
  if truthy a then a else b.

(** [a || '']. *)
Definition or_empty (a : option string) : string :=
  match or_else a (Some "") with Some s => s | None => "" end.

(** [`${name}${suffix ? ` (${suffix})` : ''}`]. *)
Definition label (name suffix : string) : string :=
  name +:+ (if truthy (Some suffix) then " (" +:+ suffix +:+ ")" else "").

(** *** Awaiting *)

(** [await f(...)]: the call is made, the command is suspended, and it
    resumes with the value, or with the rejection thrown. *)
Definition await {A} (c : call) (r : outcome A) : M A :=
  λ σ, (r, record [Invoked c; Settled c] σ).

(** The resumption alone, for a promise created earlier. *)
Definition settle {A} (c : call) (r : outcome A) : M A :=
  λ σ, (r, record [Settled c] σ).

(** [await Promise.all([p, q])] for two pending promises: the command
    resumes when both are fulfilled, or as soon as one is rejected. *)
Definition await_all {A B} (second_first : bool)
    (c1 : call) (r1 : outcome A) (c2 : call) (r2 : outcome B) : M (A * B) :=
  if second_first
  then b ← settle c2 r2; a ← settle c1 r1; mret (a, b)
  else a ← settle c1 r1; b ← settle c2 r2; mret (a, b).

(** ** The command *)

Section Execute.
Context (G : Collaborators).

(** Lines 101-111.  [l] and [r] are [args.lhs] and [args.rhs]; the result
    is the pair of local variables [lhsSha], [rhsSha]. *)
Definition resolution (l r : loc) (repoPath : string) : M (option string * option string) :=
  (* 101-102 *)
  lhsSha ← get_sha l;
  rhsSha ← get_sha r;
  (* 105: await Container.git.resolveReference(...) *)
  ref1 ← get_sha l;
  uri1 ← get_uri l;
  sha1 ← await (ResolveReference repoPath ref1 uri1) (resolveReference G repoPath ref1 uri1);
  (* 106: await Container.git.resolveReference(...), evaluated once the
     await of line 105 has resumed *)
  ref2 ← get_sha r;
  uri2 ← get_uri r;
  sha2 ← await (ResolveReference repoPath ref2 uri2) (resolveReference G repoPath ref2 uri2);
  (* 104: Promise.all of two strings, then the two assignments *)
  set_sha l (Some sha1);;
  set_sha r (Some sha2);;
  (* 109-111 *)
  c ← get_sha l;
  lhsSha ← (if negb (equals c (deletedOrMissingSha G)) then get_sha l else mret lhsSha);
  mret (lhsSha, rhsSha).

(** Lines 113-126; the result is [rhsSha]. *)
Definition classification (r : loc) (repoPath : string) (rhsSha : option string)
    : M (option string) :=
  c ← get_sha r;
  if truthy c && negb (equals c (deletedOrMissingSha G)) then
    (* 115-119 *)
    u ← get_uri r;
    file ← fsPath_of u;
    ref ← get_sha r;
    found ← await (GetFileStatusForCommit repoPath file ref)
                  (getFileStatusForCommit G repoPath file ref);
    (* 120-125 *)
    match found with
    | Some s =>
        if String.eqb (status s) "D"
        then set_sha r (Some (deletedOrMissingSha G));; mret rhsSha
        else get_sha r
    | None => get_sha r
    end
  else mret rhsSha.

(** Lines 128-131: both calls are made, then [Promise.all] is awaited. *)
Definition acquisition (l r : loc) (repoPath : string) : M (option Uri * option Uri) :=
  u ← get_uri l;
  file1 ← fsPath_of u;
  ref1 ← get_sha l;
  emit (Invoked (GetVersionedUri repoPath file1 ref1));;
  u ← get_uri r;
  file2 ← fsPath_of u;
  ref2 ← get_sha r;
  emit (Invoked (GetVersionedUri repoPath file2 ref2));;
  await_all (secondSettlesFirst G)
    (GetVersionedUri repoPath file1 ref1) (getVersionedUri G repoPath file1 ref1)
    (GetVersionedUri repoPath file2 ref2) (getVersionedUri G repoPath file2 ref2).

(** Line 133: the right suffix before it is qualified. *)
Definition rightBase (rhsSha : option string) : string :=
  or_empty (shortenSha G rhsSha (Some "Working Tree")).

(** Lines 133-147.  [c] is [args.rhs.sha]; the result is [rhsSuffix]. *)
Definition rightSuffix (rhsSha c : option string) (lhs rhs : option Uri) : string :=
  let rhsSuffix := rightBase rhsSha in
  match rhs with
  | None =>
      if isUncommitted G c then "deleted"
      else if (String.length rhsSuffix =? 0) && equals c (deletedOrMissingSha G)
           then "not in Working Tree"
           else "deleted in " +:+ rhsSuffix
  | Some _ =>
      match lhs with
      | None => "added in " +:+ rhsSuffix
      | Some _ => rhsSuffix
      end
  end.

(** Line 149: the left suffix before it is qualified.  [c] is
    [args.lhs.sha]. *)
Definition leftBase (lhsSha c : option string) : string :=
  if negb (equals c (deletedOrMissingSha G))
  then or_empty (shortenSha G lhsSha None) else "".

(** Lines 149-158.  [c1] and [c2] are [args.lhs.sha] and [args.rhs.sha];
    the result is the pair [lhsSuffix], [rhsSuffix].  [args.rhs.sha.length]
    is evaluated only when [lhs] is undefined. *)
Definition leftSuffix (lhsSha c1 c2 : option string) (lhs rhs : option Uri)
    (rhsSuffix : string) : outcome (string * string) :=
  let lhsSuffix := leftBase lhsSha c1 in
  match lhs with
  | None =>
      match c2 with
      | None => Thrown (TypeError "Cannot read property of undefined")
      | Some s =>
          if String.length s =? 0 then
            match rhs with
            | Some _ => Ok ("not in " +:+ lhsSuffix, "")
            | None => Ok ("deleted in " +:+ lhsSuffix +:+ ")", rhsSuffix)
            end
          else Ok (lhsSuffix, rhsSuffix)
      end
  | Some _ => Ok (lhsSuffix, rhsSuffix)
  end.

(** Lines 167-170. *)
Definition combinedTitle (t1 t2 : option string) : option string :=
  match t1, t2 with
  | Some a, Some b => Some (a +:+ " " +:+ ArrowLeftRightLong G +:+ " " +:+ b)
  | _, _ => or_else t1 t2
  end.

(** Lines 160-170; the result is [title]. *)
Definition titles (l r : loc) (lhs : option Uri) (lhsSuffix rhsSuffix : string)
    : M (option string) :=
  (* 160-162 *)
  t ← get_title l;
  (if bool_decide (t = None) &&
      (bool_decide (lhs ≠ None) || negb (String.length lhsSuffix =? 0))
   then u ← get_uri l; file ← fsPath_of u;
        set_title l (Some (label (basename G file) lhsSuffix))
   else mret tt);;
  (* 163-165 *)
  t ← get_title r;
  (if bool_decide (t = None)
   then u ← get_uri r; file ← fsPath_of u;
        set_title r (Some (label (basename G file) rhsSuffix))
   else mret tt);;
  (* 167-170 *)
  t1 ← get_title l;
  t2 ← get_title r;
  mret (combinedTitle t1 t2).

(** Lines 172-182. *)
Definition displayOptions (args : loc) : M unit :=
  (* 172-174 *)
  o ← get_showOptions args;
  (match o with
   | None => o ← alloc (OShowOptions emptyShowOptions); set_showOptions args (Some o)
   | Some _ => mret tt
   end);;
  (* 176-178 *)
  o ← get_showOptions args;
  o ← defined o;
  opts ← showOptionsAt o;
  (if bool_decide (viewColumn opts = None) then set_viewColumn o (Some Active) else mret tt);;
  (* 180-182 *)
  n ← get_line args;
  match n with
  | Some n =>
      if negb (n =? 0)%N
      then o ← get_showOptions args; o ← defined o;
           set_selection o (Some (mkRange n 0 n 0))
      else mret tt
  | None => mret tt
  end.

(** Lines 186-191: the reference given to the viewer for one side. *)
Definition reference (x : loc) (repoPath : string) (content : option Uri) : M Uri :=
  match content with
  | None => u ← get_uri x; file ← fsPath_of u;
            mret (toRevisionUri G (deletedOrMissingSha G) file repoPath)
  | Some c => mret c
  end.

(** Lines 184-194. *)
Definition delegation (args l r : loc) (repoPath : string)
    (lhs rhs : option Uri) (title : option string) : M any :=
  left ← reference l repoPath lhs;
  right ← reference r repoPath rhs;
  o ← get_showOptions args;
  o ← defined o;
  opts ← showOptionsAt o;
  await (ExecuteDiff left right title opts) (executeDiff G left right title opts).

(** Lines 128-194: what follows the classification. *)
Definition presentation (args l r : loc) (repoPath : string)
    (lhsSha rhsSha : option string) : M any :=
  '(lhs, rhs) ← acquisition l r repoPath;
  (* 133-147 *)
  c2 ← get_sha r;
  let rhsSuffix0 := rightSuffix rhsSha c2 lhs rhs in
  (* 149-158 *)
  c1 ← get_sha l;
  '(lhsSuffix, rhsSuffix) ← answer (leftSuffix lhsSha c1 c2 lhs rhs rhsSuffix0);
  title ← titles l r lhs lhsSuffix rhsSuffix;
  observe (mkLocals lhsSha rhsSha lhs rhs rhsSuffix0 lhsSuffix rhsSuffix title);;
  displayOptions args;;
  delegation args l r repoPath lhs rhs title.

(** Lines 101-194, the block under [try].  [args] is the object built on
    lines 92-97 and [l], [r], [repoPath] are its [lhs], [rhs] and
    [repoPath], which line 98 found defined and which are not assigned
    again. *)
Definition body (args l r : loc) (repoPath : string) : M any :=
  '(lhsSha, rhsSha) ← resolution l r repoPath;
  rhsSha ← classification r repoPath rhsSha;
  presentation args l r repoPath lhsSha rhsSha.

(** Lines 196-199, the [catch] block. *)
Definition handler (ex : exn) : M any :=
  emit (Invoked (LoggerError ex "DiffWithCommand" "getVersionedFile"));;
  emit (Invoked (ShowGenericErrorMessage "Unable to open compare"));;
  answer (showGenericErrorMessage G "Unable to open compare").

(** Lines 91-97: the default value of the parameter and the copies.  The
    result is the new [args].  The spreads read objects that exist when the
    command is entered and the literals allocate objects that did not, so
    the order between a read and an allocation cannot be observed; the
    reads are taken first. *)
Definition copy (a : option loc) : M loc :=
  (* 91: args = {} when the argument is undefined *)
  a ← match a with Some a => mret a | None => alloc (OArgs emptyArgs) end;
  (* 93-96: ...args, ...args.lhs, ...args.rhs, ...args.showOptions *)
  old ← spreadArgs (Some a);
  x ← spreadRevision (lhs old);
  y ← spreadRevision (rhs old);
  z ← spreadShowOptions (showOptions old);
  (* 94-96: the three inner object literals *)
  l ← alloc (ORevision x);
  r ← alloc (ORevision y);
  o ← alloc (OShowOptions z);
  (* 92-97: the outer object literal *)
  alloc (OArgs (mkArgs (Some l) (Some r) (repoPath old) (line old) (Some o))).

(** Lines 91-200.  [a] is the third argument of the call; the first two,
    [editor] and [uri], are not used. *)
Definition execute (a : option loc) : M any :=
  args ← copy a;
  (* 98 *)
  new ← argsAt args;
  match repoPath new, lhs new, rhs new with
  | Some repoPath, Some l, Some r =>
      (* 100, 196 *)
      try_catch (body args l r repoPath) handler
  | _, _, _ => mret None
  end.

End Execute.

(** ** The request built from commits *)

(** [GitCommit], as far as [getMarkdownCommandArgs] reads it.  Line 57
    asserts [previousUri] to be defined; the assertion is not checked when
    the code runs. *)
Module GitCommit.
Record t := mk
  { isUncommitted : bool;
    repoPath : string;
    uri : Uri;
    previousSha : option string;
    previousUri : option Uri;
    sha : string }.
End GitCommit.

(** A [DiffWithCommandArgs] written as an object literal: the objects the
    literal creates are new and nothing else refers to them, so the value
    holds them instead of references. *)
Module Request.
Record t := mk
  { repoPath : option string;
    lhs : option DiffWithCommandArgsRevision;
    rhs : option DiffWithCommandArgsRevision;
    line : option N;
    showOptions : option TextDocumentShowOptions }.

(** The objects of a request, as a caller of [execute] holds them: the
    arguments at [Caller 0], the sides and the display options it has at
    [Caller 1], [Caller 2] and [Caller 3]. *)
Definition objects (r : t) : gmap nat obj :=
  let put (n : nat) (o : option obj) (h : gmap nat obj) : gmap nat obj :=
    match o with Some x => <[n := x]> h | None => h end in
  put 1 (ORevision <$> lhs r)
    (put 2 (ORevision <$> rhs r)
       (put 3 (OShowOptions <$> showOptions r)
          {[ 0 := OArgs (mkArgs ((λ _, Caller 1) <$> lhs r) ((λ _, Caller 2) <$> rhs r)
                                (repoPath r) (line r)
                                ((λ _, Caller 3) <$> showOptions r)) ]})).
End Request.

Section Markdown.
Context (G : Collaborators).
(* Commands.DiffWith and ActiveEditorCommand.getMarkdownCommandArgsCore *)
Context (DiffWith : string) (getMarkdownCommandArgsCore : string → Request.t → string).

(** Lines 31-82: the value of [args] when line 84 is reached. *)
Definition markdownArgs (argsOrCommit1 : Request.t + GitCommit.t)
    (commit2 : option GitCommit.t) : Request.t :=
  match argsOrCommit1 with
  | inr commit1 =>
      match commit2 with
      | None =>
          if GitCommit.isUncommitted commit1 then
            (* 37-47 *)
            Request.mk (Some (GitCommit.repoPath commit1))
              (Some (mkRevision (Some "HEAD") (Some (GitCommit.uri commit1)) None))
              (Some (mkRevision (Some "") (Some (GitCommit.uri commit1)) None))
              None None
          else
            (* 50-63 *)
            Request.mk (Some (GitCommit.repoPath commit1))
              (Some (mkRevision
                       (Some (match GitCommit.previousSha commit1 with
                              | Some previous => previous
                              | None => deletedOrMissingSha G
                              end))
                       (GitCommit.previousUri commit1) None))
              (Some (mkRevision (Some (GitCommit.sha commit1))
                                (Some (GitCommit.uri commit1)) None))
              None None
      | Some commit2 =>
          (* 67-77 *)
          Request.mk (Some (GitCommit.repoPath commit1))
            (Some (mkRevision (Some (GitCommit.sha commit1))
                              (Some (GitCommit.uri commit1)) None))
            (Some (mkRevision (Some (GitCommit.sha commit2))
                              (Some (GitCommit.uri commit2)) None))
            None None
      end
  | inl args =>
      (* 81 *)
      args
  end.

(** Lines 30-85. *)
Definition getMarkdownCommandArgs (argsOrCommit1 : Request.t + GitCommit.t)
    (commit2 : option GitCommit.t) : string :=
  getMarkdownCommandArgsCore DiffWith (markdownArgs argsOrCommit1 commit2).

End Markdown.

(** ** Vocabulary of the statements *)

(** The objects of the invocation as lines 92-97 leave them: the copies of
    the two sides at [Own 0] and [Own 1], the copy of the display options
    at [Own 2] and the new [args] at [Own 3]. *)
Definition drafts (L R : DiffWithCommandArgsRevision) (S : TextDocumentShowOptions)
    (repo : option string) (ln : option N) : list obj :=
  [ORevision L; ORevision R; OShowOptions S;
   OArgs (mkArgs (Some (Own 0)) (Some (Own 1)) repo ln (Some (Own 2)))].

(** A later state of the invocation that was in [σ]: the caller's objects
    are those of [σ], the invocation's objects are [drafts L R S repo ln],
    and the events [es] have been added. *)
Definition later (σ : state) (L R : DiffWithCommandArgsRevision)
    (S : TextDocumentShowOptions) (repo : option string) (ln : option N)
    (v : option Locals) (es : list event) : state :=
  mkState (caller σ) (drafts L R S repo ln) v (trace σ ++ es).

(** No call to the viewer among the events. *)
Definition quiet (es : list event) : Prop :=
  ∀ a b t o, Invoked (ExecuteDiff a b t o) ∉ es.

(** The reference a side hands to the viewer (lines 186-191), given the
    content reference [c] and the location [u] of the side. *)
Definition handed (G : Collaborators) (repo : string) (u : Uri) (c : option Uri) : Uri :=
  match c with
  | Some x => x
  | None => toRevisionUri G (deletedOrMissingSha G) (fsPath u) repo
  end.

(** The suffixes that [v] records are the ones lines 133-158 derive from
    the revisions [c1], [c2] of the two sides. *)
Definition derived (G : Collaborators) (v : Locals) (c1 c2 : option string) : Prop :=
  v_rhsSuffix0 v = rightSuffix G (v_rhsSha v) c2 (v_lhs v) (v_rhs v) ∧
  leftSuffix G (v_lhsSha v) c1 c2 (v_lhs v) (v_rhs v) (v_rhsSuffix0 v)
    = Ok (v_lhsSuffix v, v_rhsSuffix v).

(** The labels lines 160-165 leave in the two sides, given the labels [t1]
    and [t2] they had and their locations. *)
Definition leftLabel (G : Collaborators) (t1 : option string) (u : Uri)
    (lhs : option Uri) (lhsSuffix : string) : option string :=
  if bool_decide (t1 = None) &&
     (bool_decide (lhs ≠ None) || negb (String.length lhsSuffix =? 0))
  then Some (label (basename G (fsPath u)) lhsSuffix)
  else t1.

Definition rightLabel (G : Collaborators) (t2 : option string) (u : Uri)
    (rhsSuffix : string) : option string :=
  if bool_decide (t2 = None)
  then Some (label (basename G (fsPath u)) rhsSuffix)
  else t2.

(** The request as the caller's objects [h] hold it when [execute] is
    entered with the argument [a]: the arguments object, its two sides and
    its display options, each [{}] where the request has none. *)
Definition request (h : gmap nat obj) (a : option loc) : DiffWithCommandArgs :=
  argsOf (enter h) a.
Definition leftOf (h : gmap nat obj) (a : option loc) : DiffWithCommandArgsRevision :=
  revisionOf (enter h) (lhs (request h a)).
Definition rightOf (h : gmap nat obj) (a : option loc) : DiffWithCommandArgsRevision :=
  revisionOf (enter h) (rhs (request h a)).
Definition optionsOf (h : gmap nat obj) (a : option loc) : TextDocumentShowOptions :=
  showOptionsOf (enter h) (showOptions (request h a)).

(** The state in which line 98 is reached when an arguments object was
    passed. *)
Definition copied (h : gmap nat obj) (a : loc) : state :=
  mkState h
    (drafts (leftOf h (Some a)) (rightOf h (Some a)) (optionsOf h (Some a))
            (repoPath (request h (Some a))) (line (request h (Some a))))
    None [].

(** Where lines 94 and 95 put the copies of the two sides: they are the
    first objects the invocation allocates, after the [{}] of line 91 when
    no arguments object was passed. *)
Definition leftCopy (a : option loc) : loc :=
  Own (match a with Some _ => 0 | None => 1 end).
Definition rightCopy (a : option loc) : loc :=
  Own (match a with Some _ => 1 | None => 2 end).

(** The state in which [execute] ends. *)
Definition final (G : Collaborators) (h : gmap nat obj) (a : option loc) : state :=
  (execute G a (enter h)).2.

(** The two events of the [catch] block. *)
Definition reported (ex : exn) : list event :=
  [Invoked (LoggerError ex "DiffWithCommand" "getVersionedFile");
   Invoked (ShowGenericErrorMessage "Unable to open compare")].

(** What the [catch] block makes of a completion of the block under
    [try], and the events it adds. *)
Definition caught (G : Collaborators) (out : outcome any) : outcome any :=
  match out with
  | Ok x => Ok x
  | Thrown _ => showGenericErrorMessage G "Unable to open compare"
  end.

Definition caught_events (out : outcome any) : list event :=
  match out with
  | Ok _ => []
  | Thrown e => reported e
  end.

#[global] Instance Uri_eq_dec : EqDecision Uri.
Proof. solve_decision. Defined.
#[global] Instance ViewColumn_eq_dec : EqDecision ViewColumn.
Proof. solve_decision. Defined.
#[global] Instance Range_eq_dec : EqDecision Range.
Proof. solve_decision. Defined.
#[global] Instance TextDocumentShowOptions_eq_dec : EqDecision TextDocumentShowOptions.
Proof. solve_decision. Defined.
#[global] Instance exn_eq_dec : EqDecision exn.
Proof. solve_decision. Defined.
#[global] Instance call_eq_dec : EqDecision call.
Proof. solve_decision. Defined.
#[global] Instance event_eq_dec : EqDecision event.
Proof. solve_decision. Defined.

(** The place of the first occurrence of an event in a trace. *)
Fixpoint position (e : event) (tr : list event) : option nat :=
  match tr with
  | [] => None
  | e' :: tr' => if bool_decide (e = e') then Some 0 else S <$> position e tr'
  end.

(** Both events occur, the first one earlier. *)
Definition before (e1 e2 : event) (tr : list event) : bool :=
  match position e1 tr, position e2 tr with
  | Some i, Some j => i <? j
  | _, _ => false
  end.

(** The two calls are pending at the same time: each is made before the
    command resumes from the other. *)
Definition inFlightTogether (c1 c2 : call) (tr : list event) : bool :=
  before (Invoked c1) (Settled c2) tr && before (Invoked c2) (Settled c1) tr.

(** *** Three claims as the specification states them

    Each is a property of one request [h], [a] under the collaborators
    [G]; the claim is that it holds for all of them. *)

(** C3 as stated: when the revision of the right side resolves to a
    concrete revision [x2] at which the file is reported deleted, the
    revision of the side ends as the sentinel and the right suffix that is
    derived is "deleted in " followed by the shortened prior revision:
    either the value of [rhsSha] or the resolved revision. *)
Definition C3_as_stated (G : Collaborators) (h : gmap nat obj) (a : loc) : Prop :=
  ∀ rp uR x1 x2 s,
    repoPath (request h (Some a)) = Some rp →
    uri (rightOf h (Some a)) = Some uR →
    resolveReference G rp (sha (leftOf h (Some a))) (uri (leftOf h (Some a))) = Ok x1 →
    resolveReference G rp (sha (rightOf h (Some a))) (uri (rightOf h (Some a))) = Ok x2 →
    x2 ≠ "" → x2 ≠ deletedOrMissingSha G →
    getFileStatusForCommit G rp (fsPath uR) (Some x2) = Ok (Some s) →
    status s = "D" →
    ∃ R', load (rightCopy (Some a)) (final G h (Some a)) = Some (ORevision R') ∧
          sha R' = Some (deletedOrMissingSha G) ∧
          ∀ v, locals (final G h (Some a)) = Some v →
               v_rhsSuffix0 v = "deleted in " +:+ rightBase G (v_rhsSha v) ∨
               v_rhsSuffix0 v = "deleted in " +:+ rightBase G (Some x2).

(** C4 as stated: when the left content reference is absent, the revision
    of the right side is empty and the right content reference is
    present, the left suffix is "not in " followed by the shortened left
    revision, either the value of [lhsSha] or the revision of the side,
    and the right suffix is empty. *)
Definition C4_as_stated (G : Collaborators) (h : gmap nat obj) (a : loc) : Prop :=
  ∀ v L' R' c,
    locals (final G h (Some a)) = Some v →
    load (leftCopy (Some a)) (final G h (Some a)) = Some (ORevision L') →
    load (rightCopy (Some a)) (final G h (Some a)) = Some (ORevision R') →
    v_lhs v = None → sha R' = Some "" → v_rhs v = Some c →
    (v_lhsSuffix v = "not in " +:+ or_empty (shortenSha G (v_lhsSha v) None) ∨
     v_lhsSuffix v = "not in " +:+ or_empty (shortenSha G (sha L') None)) ∧
    v_rhsSuffix v = "".

(** C5 as stated: when both content references are absent and the
    revision of the right side is empty, the left suffix is "deleted in "
    followed by the shortened left revision and a closing parenthesis. *)
Definition C5_as_stated (G : Collaborators) (h : gmap nat obj) (a : loc) : Prop :=
  ∀ v L' R',
    locals (final G h (Some a)) = Some v →
    load (leftCopy (Some a)) (final G h (Some a)) = Some (ORevision L') →
    load (rightCopy (Some a)) (final G h (Some a)) = Some (ORevision R') →
    v_lhs v = None → sha R' = Some "" → v_rhs v = None →
    v_lhsSuffix v = "deleted in " +:+ or_empty (shortenSha G (v_lhsSha v) None) +:+ ")" ∨
    v_lhsSuffix v = "deleted in " +:+ or_empty (shortenSha G (sha L') None) +:+ ")".

(** ** Test doubles

    Concrete collaborators, used to run the command on concrete requests. *)

Module Double.

Definition sentinel : string := "0000000000000000000000000000000000000000-".
Definition uncommitted : string := "0000000000000000000000000000000000000000".

(** Shortening: nothing for [undefined], the empty string for the working
    copy, the given word for an uncommitted revision, the first seven
    characters otherwise. *)
Definition shorten (ref : option string) (word : option string) : option string :=
  match ref with
  | None => None
  | Some s =>
      if String.eqb s "" then Some ""
      else if String.eqb s uncommitted then Some (default "Working Tree" word)
      else Some (String.substring 0 7 s)
  end.

(** The last component of a path written with slashes. *)
Fixpoint lastComponent (acc p : string) : string :=
  match p with
  | EmptyString => acc
  | String c p' =>
      if Ascii.eqb c (Ascii.ascii_of_nat 47) then lastComponent "" p'
      else lastComponent (acc +:+ String c "") p'
  end.

Definition revisionUri (ref file repo : string) : Uri := mkUri "gitlens" file ref.

(** A double is given by the answers of the three repository services and
    of the viewer. *)
Definition make
    (resolve : string → option string → option Uri → outcome string)
    (statusOf : string → string → option string → outcome (option GitStatusFile))
    (versioned : string → string → option string → outcome (option Uri))
    (viewer : Uri → Uri → option string → TextDocumentShowOptions → outcome any)
    : Collaborators :=
  {| deletedOrMissingSha := sentinel;
     ArrowLeftRightLong := "↔";
     shortenSha := shorten;
     isUncommitted := λ ref, equals ref uncommitted;
     toRevisionUri := revisionUri;
     basename := lastComponent "";
     resolveReference := resolve;
     getFileStatusForCommit := statusOf;
     getVersionedUri := versioned;
     executeDiff := viewer;
     showGenericErrorMessage := λ _, Ok None;
     secondSettlesFirst := false |}.

(** A repository in which every reference resolves to itself, no file is
    reported deleted, and a file has content at every revision but the
    sentinel. *)
Definition identity : string → option string → option Uri → outcome string :=
  λ _ ref _, Ok (default "" ref).
Definition unchanged : string → string → option string → outcome (option GitStatusFile) :=
  λ _ file _, Ok (Some (mkStatus "M" file)).
Definition present : string → string → option string → outcome (option Uri) :=
  λ repo file ref,
    match ref with
    | Some s => if String.eqb s sentinel then Ok None
                else if String.eqb s "" then Ok (Some (mkUri "file" file ""))
                else Ok (Some (revisionUri s file repo))
    | None => Ok (Some (mkUri "file" file ""))
    end.
Definition opens : Uri → Uri → option string → TextDocumentShowOptions → outcome any :=
  λ _ _ _ _, Ok None.

Definition plain : Collaborators := make identity unchanged present opens.

(** A repository in which the working copy resolves to a commit, and in
    which every file is reported deleted at every commit. *)
Definition head : string := "4f9d2a7c1b3e5d6f8a0b1c2d3e4f5a6b7c8d9e0f".
Definition pinned : string → option string → option Uri → outcome string :=
  λ _ ref _,
    match ref with
    | Some s => if String.eqb s "" then Ok head else Ok s
    | None => Ok head
    end.
Definition removed : string → string → option string → outcome (option GitStatusFile) :=
  λ _ file _, Ok (Some (mkStatus "D" file)).
Definition deleting : Collaborators := make pinned removed present opens.

(** A repository in which every reference resolves to itself and every
    file is reported deleted. *)
Definition pruning : Collaborators := make identity removed present opens.

(** A repository in which no file has content at any revision. *)
Definition nothing : string → string → option string → outcome (option Uri) :=
  λ _ _ _, Ok None.
Definition empty : Collaborators := make identity unchanged nothing opens.

(** A repository that cannot be read. *)
Definition unreadable : string → option string → option Uri → outcome string :=
  λ _ _ _, Thrown (Failure "fatal: not a git repository").
Definition broken : Collaborators := make unreadable unchanged present opens.

(** A viewer that fails. *)
Definition fails : Uri → Uri → option string → TextDocumentShowOptions → outcome any :=
  λ _ _ _ _, Thrown (Failure "cannot open the editor").
Definition blind : Collaborators := make identity unchanged present fails.

(** The caller's objects of a request
    [{ repoPath, lhs: { sha, uri }, rhs: { sha, uri } }] at reference
    [Caller 0]. *)
Definition file (p : string) : Uri := mkUri "file" p "".

Definition objects (repo : option string)
    (left right : option DiffWithCommandArgsRevision) : gmap nat obj :=
  let h : gmap nat obj :=
    {[ 0 := OArgs (mkArgs ((λ _, Caller 1) <$> left) ((λ _, Caller 2) <$> right) repo None None) ]} in
  let h := match left with Some x => <[1 := ORevision x]> h | None => h end in
  match right with Some x => <[2 := ORevision x]> h | None => h end.

Definition side (ref path : string) : DiffWithCommandArgsRevision :=
  mkRevision (Some ref) (Some (file path)) None.

(** Four requests about one file. *)
Definition path : string := "/repo/src/a.ts".

(** The working copy against HEAD. *)
Definition working : gmap nat obj :=
  objects (Some "/repo") (Some (side "HEAD" path)) (Some (side "" path)).

(** The working copy against a revision in which the file is missing. *)
Definition added : gmap nat obj :=
  objects (Some "/repo") (Some (side sentinel path)) (Some (side "" path)).

(** A commit against a revision in which the file is missing. *)
Definition introduced : gmap nat obj :=
  objects (Some "/repo") (Some (side sentinel path)) (Some (side head path)).

(** A request without left side. *)
Definition unsided : gmap nat obj :=
  objects (Some "/repo") None (Some (side "" path)).

(** What the run on a request leaves: the local variables and the two
    sides. *)
Definition localsOf (G : Collaborators) (h : gmap nat obj) : Locals :=
  default (mkLocals None None None None "" "" "" None)
          (locals (final G h (Some (Caller 0)))).
Definition leftAfter (G : Collaborators) (h : gmap nat obj) : DiffWithCommandArgsRevision :=
  revisionOf (final G h (Some (Caller 0))) (Some (Own 0)).
Definition rightAfter (G : Collaborators) (h : gmap nat obj) : DiffWithCommandArgsRevision :=
  revisionOf (final G h (Some (Caller 0))) (Some (Own 1)).

End Double.


(** ** Vocabulary of the further properties *)

(** The test of line 113 on a resolved revision. *)
Definition concrete (G : Collaborators) (x : string) : bool :=
  negb (String.eqb x "") && negb (String.eqb x (deletedOrMissingSha G)).

(** The test of line 120 on the answer of the status lookup. *)
Definition deleted (found : option GitStatusFile) : bool :=
  match found with
  | Some s => String.eqb (status s) "D"
  | None => false
  end.

(** The display options after lines 172-182, given the ones of the request
    and its line. *)
Definition shown (S : TextDocumentShowOptions) (ln : option N) : TextDocumentShowOptions :=
  mkShowOptions
    (match viewColumn S with Some c => Some c | None => Some Active end)
    (preserveFocus S) (preview S)
    (match ln with
     | Some n => if (n =? 0)%N then selection S else Some (mkRange n 0 n 0)
     | None => selection S
     end).

(** The call of an event, and the place of a call in the pipeline. *)
Definition called (e : event) : call :=
  match e with Invoked c => c | Settled c => c end.

Definition rank (c : call) : nat :=
  match c with
  | ResolveReference _ _ _ => 0
  | GetFileStatusForCommit _ _ _ => 1
  | GetVersionedUri _ _ _ => 2
  | ExecuteDiff _ _ _ _ => 3
  | LoggerError _ _ _ => 4
  | ShowGenericErrorMessage _ => 5
  end.

(** The calls made, in the order in which they are made. *)
Fixpoint invocations (tr : list event) : list call :=
  match tr with
  | [] => []
  | Invoked c :: tr' => c :: invocations tr'
  | Settled _ :: tr' => invocations tr'
  end.

(** How many calls of a rank are made. *)
Definition count (k : nat) (tr : list event) : nat :=
  length (filter (λ c, rank c = k) (invocations tr)).

(** The ranks never decrease along the list. *)
Fixpoint ascending (ks : list nat) : bool :=
  match ks with
  | k1 :: ((k2 :: _) as ks') => (k1 <=? k2) && ascending ks'
  | _ => true
  end.

(** What [await Promise.all] of two promises completes with, and the
    settlements the command waits for, given the outcomes of the two and
    which one settles first. *)
Definition joined {A B} (second_first : bool) (r1 : outcome A) (r2 : outcome B)
    : outcome (A * B) :=
  if second_first then
    match r2, r1 with
    | Thrown e, _ => Thrown e
    | Ok _, Thrown e => Thrown e
    | Ok b, Ok a => Ok (a, b)
    end
  else
    match r1, r2 with
    | Thrown e, _ => Thrown e
    | Ok _, Thrown e => Thrown e
    | Ok a, Ok b => Ok (a, b)
    end.

Definition settlements {A B} (second_first : bool)
    (c1 : call) (r1 : outcome A) (c2 : call) (r2 : outcome B) : list event :=
  if second_first
  then Settled c2 :: match r2 with Ok _ => [Settled c1] | Thrown _ => [] end
  else Settled c1 :: match r1 with Ok _ => [Settled c2] | Thrown _ => [] end.

(** The events of one stage of the pipeline: calls of rank [k] only, at
    most [n] of them made. *)
Definition ofRank (k n : nat) (es : list event) : Prop :=
  Forall (λ ev, rank (called ev) = k) es ∧ length (invocations es) ≤ n.

(** The events of lines 104-107: the lookup for the left side, and after
    it the lookup for the right side if the first one is answered. *)
Definition lookups (G : Collaborators) (rp : string)
    (L R : DiffWithCommandArgsRevision) (es : list event) : Prop :=
  let c1 := ResolveReference rp (sha L) (uri L) in
  let c2 := ResolveReference rp (sha R) (uri R) in
  match resolveReference G rp (sha L) (uri L) with
  | Ok _ => es = [Invoked c1; Settled c1; Invoked c2; Settled c2]
  | Thrown _ => es = [Invoked c1; Settled c1]
  end.

(** Lines 113-126 for a right side at [u] whose revision resolved to [x]:
    no verdict when the status is not looked up, otherwise whether the
    file is reported deleted. *)
Definition verdict (G : Collaborators) (rp : string) (u : Uri) (x : string)
    : outcome (option bool) :=
  if concrete G x then
    match getFileStatusForCommit G rp (fsPath u) (Some x) with
    | Ok found => Ok (Some (deleted found))
    | Thrown e => Thrown e
    end
  else Ok None.

Definition statusEvents (G : Collaborators) (rp : string) (u : Uri) (x : string)
    : list event :=
  let c := GetFileStatusForCommit rp (fsPath u) (Some x) in
  if concrete G x then [Invoked c; Settled c] else [].

(** [args.rhs.sha] and [rhsSha] after lines 113-126, given the resolved
    revision [x], the value [rhsSha] had and the verdict. *)
Definition revisionAfter (G : Collaborators) (x : string) (d : option bool) : string :=
  match d with Some true => deletedOrMissingSha G | _ => x end.

Definition rhsShaAfter (rhsSha : option string) (x : string) (d : option bool)
    : option string :=
  match d with Some false => Some x | _ => rhsSha end.

(** [lhsSha] after lines 109-111, given the resolved revision [x] and the
    value [lhsSha] had. *)
Definition lhsShaAfter (G : Collaborators) (lhsSha : option string) (x : string)
    : option string :=
  if String.eqb x (deletedOrMissingSha G) then lhsSha else Some x.

(** The events of lines 113-126 in a run: none, or the status lookup for
    the location of the right side at its resolved, concrete revision. *)
Definition statusLookup (G : Collaborators) (rp : string)
    (R : DiffWithCommandArgsRevision) (es : list event) : Prop :=
  es = [] ∨
  ∃ u x, uri R = Some u ∧
         resolveReference G rp (sha R) (uri R) = Ok x ∧
         concrete G x = true ∧
         es = [Invoked (GetFileStatusForCommit rp (fsPath u) (Some x));
               Settled (GetFileStatusForCommit rp (fsPath u) (Some x))].

(** The events of a block under [try] that ends with the call [d] to the
    viewer, given the resolved revisions [x1], [x2], the verdict [v] and
    the content references [lhs], [rhs]. *)
Definition pipeline (G : Collaborators) (rp : string)
    (L R : DiffWithCommandArgsRevision) (uL uR : Uri) (x1 x2 : string)
    (v : option bool) (lhs rhs : option Uri) (d : call) : list event :=
  let c1 := ResolveReference rp (sha L) (uri L) in
  let c2 := ResolveReference rp (sha R) (uri R) in
  let g1 := GetVersionedUri rp (fsPath uL) (Some x1) in
  let g2 := GetVersionedUri rp (fsPath uR) (Some (revisionAfter G x2 v)) in
  [Invoked c1; Settled c1; Invoked c2; Settled c2]
  ++ statusEvents G rp uR x2
  ++ [Invoked g1; Invoked g2]
  ++ settlements (secondSettlesFirst G) g1 (Ok lhs : outcome (option Uri))
                 g2 (Ok rhs : outcome (option Uri))
  ++ [Invoked d; Settled d].

(** ** Samples

    Requests and commits used to run the two functions together. *)

Module Sample.

(** A request with labels, a line and display options. *)
Definition labelled : Request.t :=
  Request.mk (Some "/repo")
    (Some (mkRevision (Some "HEAD") (Some (Double.file Double.path)) (Some "theirs")))
    (Some (mkRevision (Some "") (Some (Double.file Double.path)) (Some "mine")))
    (Some 12%N)
    (Some (mkShowOptions (Some Beside) None (Some true) None)).

(** A request whose right side has no location. *)
Definition unlocated : Request.t :=
  Request.mk (Some "/repo")
    (Some (mkRevision (Some "HEAD") (Some (Double.file Double.path)) None))
    (Some (mkRevision (Some "") None None))
    None None.

(** The uncommitted changes of a file. *)
Definition edited : GitCommit.t :=
  GitCommit.mk true "/repo" (Double.file Double.path)
    (Some "HEAD") (Some (Double.file Double.path)) Double.uncommitted.

(** The commit that created a file. *)
Definition created : GitCommit.t :=
  GitCommit.mk false "/repo" (Double.file Double.path)
    None (Some (Double.file Double.path)) Double.head.

(** A commit whose previous location is not known. *)
Definition orphan : GitCommit.t :=
  GitCommit.mk false "/repo" (Double.file Double.path) None None Double.head.

(** A later commit of the same file. *)
Definition amended : GitCommit.t :=
  GitCommit.mk false "/repo" (Double.file Double.path)
    (Some Double.head) (Some (Double.file Double.path))
    "9e8d7c6b5a4f3e2d1c0b9a8f7e6d5c4b3a2f1e0d".

(** A repository in which the status of a file cannot be read, and one
    in which no content can be read. *)
Definition statusless : Collaborators :=
  Double.make Double.identity (λ _ _ _, Thrown (Failure "fatal: bad object"))
              Double.present Double.opens.

Definition contentless : Collaborators :=
  Double.make Double.identity Double.unchanged
              (λ _ _ _, Thrown (Failure "fatal: cannot read")) Double.opens.

End Sample.

(** ** Running the command symbolically *)

(** Running a piece of the command on a state whose objects are known:
    the monad and the store are unfolded, the strings are left alone. *)
Ltac run :=
  cbv [execute copy body presentation resolution classification acquisition
       titles displayOptions delegation reference handler
       get_sha get_uri get_title set_sha set_title get_showOptions get_line
       set_showOptions set_viewColumn set_selection fsPath_of defined
       revisionAt showOptionsAt argsAt notAnObject
       spreadArgs spreadRevision spreadShowOptions
       load store alloc emit observe record await settle await_all answer
       throw try_catch enter drafts later
       mbind M_bind mret M_ret fst snd
       caller own locals trace];
  cbn [sha uri title lhs rhs repoPath line showOptions
       viewColumn preserveFocus preview selection negb andb orb
       lookup list_lookup insert list_insert length app].

(** One case distinction on what the run is waiting for: an answer of a
    collaborator first, a condition of the code otherwise. *)
Ltac step :=
  match goal with
  | |- context [resolveReference ?G ?a ?b ?c] =>
      destruct (resolveReference G a b c) eqn:?
  | |- context [getFileStatusForCommit ?G ?a ?b ?c] =>
      destruct (getFileStatusForCommit G a b c) as [[?|]|?] eqn:?
  | |- context [getVersionedUri ?G ?a ?b ?c] =>
      destruct (getVersionedUri G a b c) as [[?|]|?] eqn:?
  | |- context [executeDiff ?G ?a ?b ?c ?d] =>
      destruct (executeDiff G a b c d) eqn:?
  | |- context [if ?b then _ else _] => destruct b eqn:?
  | |- context [match ?x with Some _ => _ | None => _ end] => destruct x eqn:?
  | |- context [match ?x with Ok _ => _ | Thrown _ => _ end] => destruct x eqn:?
  end.

Ltac crunch := run; repeat (step; run).

(** Closing a goal [∃ ..., σ' = later σ ... ∧ ...] once [σ'] is explicit. *)
Ltac quiet_done :=
  let H := fresh in
  intros ? ? ? ? H;
  repeat (apply elem_of_cons in H as [H|H]; [discriminate H|]);
  by apply elem_of_nil in H.

Lemma no_event c o v (tr : list event) : mkState c o v tr = mkState c o v (tr ++ []).
Proof. by rewrite app_nil_r. Qed.

Ltac settled :=
  repeat match goal with
         | |- ∃ _, _ => eexists
         | |- _ ∧ _ => split
         end;
  rewrite <- ?(assoc_L (++)); cbn [app];
  try reflexivity; try apply no_event; try reflexivity;
  try assumption; try quiet_done.

(** A membership in a concrete trace. *)
Ltac among :=
  match goal with |- ?P => apply (@bool_decide_unpack P _) end; vm_compute; exact I.

(** An equation between closed terms, by evaluation. *)
Ltac evaluated := vm_compute; reflexivity.

(** A membership [H] in a list of events none of which can be the one. *)
Ltac absent H :=
  repeat (apply elem_of_cons in H as [H|H]; [discriminate H|]);
  by apply elem_of_nil in H.

(** ** What each stage does to the state *)

Section Stages.
Context (G : Collaborators).
Implicit Types (σ : state) (L R : DiffWithCommandArgsRevision)
  (S : TextDocumentShowOptions).

Lemma resolution_later σ L R S repo ln repoPath :
  own σ = drafts L R S repo ln →
  ∃ L' R' es,
    (resolution G (Own 0) (Own 1) repoPath σ).2 = later σ L' R' S repo ln (locals σ) es ∧
    uri L' = uri L ∧ title L' = title L ∧
    uri R' = uri R ∧ title R' = title R ∧ quiet es.
Proof.
  destruct σ as [c o lc tr]; cbn; intros ->.
  crunch; settled.
Qed.

Lemma classification_later σ L R S repo ln repoPath rhsSha :
  own σ = drafts L R S repo ln →
  ∃ R' es,
    (classification G (Own 1) repoPath rhsSha σ).2 = later σ L R' S repo ln (locals σ) es ∧
    uri R' = uri R ∧ title R' = title R ∧ quiet es.
Proof.
  destruct σ as [c o lc tr]; cbn; intros ->.
  destruct R as [c2 u2 t2].
  crunch; settled.
Qed.

Lemma acquisition_later σ L R S repo ln repoPath :
  own σ = drafts L R S repo ln →
  ∃ es,
    (acquisition G (Own 0) (Own 1) repoPath σ).2 = later σ L R S repo ln (locals σ) es ∧
    quiet es ∧
    ∀ p, (acquisition G (Own 0) (Own 1) repoPath σ).1 = Ok p →
         is_Some (uri L) ∧ is_Some (uri R).
Proof.
  destruct σ as [c o lc tr]; cbn; intros ->.
  destruct L as [c1 u1 t1], R as [c2 u2 t2].
  crunch; settled; try discriminate; eauto.
Qed.

Lemma titles_run σ L R S repo ln uL uR lhs lhsSuffix rhsSuffix :
  own σ = drafts L R S repo ln → uri L = Some uL → uri R = Some uR →
  let t1 := leftLabel G (title L) uL lhs lhsSuffix in
  let t2 := rightLabel G (title R) uR rhsSuffix in
  titles G (Own 0) (Own 1) lhs lhsSuffix rhsSuffix σ =
    (Ok (combinedTitle G t1 t2),
     later σ (mkRevision (sha L) (uri L) t1) (mkRevision (sha R) (uri R) t2)
           S repo ln (locals σ) []).
Proof.
  destruct σ as [c o lc tr], L as [c1 u1 t1], R as [c2 u2 t2]; cbn.
  intros -> -> ->. unfold leftLabel, rightLabel.
  crunch; unfold later; cbn; by rewrite app_nil_r.
Qed.

Lemma displayOptions_run σ L R S repo ln :
  own σ = drafts L R S repo ln →
  ∃ S', displayOptions (Own 3) σ = (Ok tt, later σ L R S' repo ln (locals σ) []).
Proof.
  destruct σ as [c o lc tr]; cbn; intros ->.
  crunch; eexists; unfold later; cbn; by rewrite app_nil_r.
Qed.

Lemma delegation_run σ L R S repo ln repoPath uL uR lhs rhs label :
  own σ = drafts L R S repo ln → uri L = Some uL → uri R = Some uR →
  let d := ExecuteDiff (handed G repoPath uL lhs) (handed G repoPath uR rhs) label S in
  delegation G (Own 3) (Own 0) (Own 1) repoPath lhs rhs label σ =
    (executeDiff G (handed G repoPath uL lhs) (handed G repoPath uR rhs) label S,
     later σ L R S repo ln (locals σ) [Invoked d; Settled d]).
Proof.
  destruct σ as [c o lc tr], L as [c1 u1 t1], R as [c2 u2 t2]; cbn.
  intros -> -> ->. by destruct lhs, rhs.
Qed.

Lemma handler_run σ ex :
  handler G ex σ =
    (showGenericErrorMessage G "Unable to open compare",
     record [Invoked (LoggerError ex "DiffWithCommand" "getVersionedFile");
             Invoked (ShowGenericErrorMessage "Unable to open compare")] σ).
Proof.
  destruct σ as [c o lc tr]. unfold handler, record. run.
  by rewrite <- (assoc_L (++)).
Qed.

(** Lines 128-194.  Either something throws before the labels exist, and
    then nothing was written and the viewer was not called; or the labels
    are derived and written, and the last thing that happens is the call
    to the viewer, whose completion is the completion of the block. *)
Lemma presentation_later σ L R S repo ln repoPath lhsSha rhsSha :
  own σ = drafts L R S repo ln →
  let out := presentation G (Own 3) (Own 0) (Own 1) repoPath lhsSha rhsSha σ in
  (∃ e es, out = (Thrown e, later σ L R S repo ln (locals σ) es) ∧ quiet es)
  ∨ (∃ uL uR v S' es,
       uri L = Some uL ∧ uri R = Some uR ∧
       v_lhsSha v = lhsSha ∧ v_rhsSha v = rhsSha ∧
       derived G v (sha L) (sha R) ∧
       let t1 := leftLabel G (title L) uL (v_lhs v) (v_lhsSuffix v) in
       let t2 := rightLabel G (title R) uR (v_rhsSuffix v) in
       let left := handed G repoPath uL (v_lhs v) in
       let right := handed G repoPath uR (v_rhs v) in
       let d := ExecuteDiff left right (v_title v) S' in
       v_title v = combinedTitle G t1 t2 ∧ quiet es ∧
       out = (executeDiff G left right (v_title v) S',
              later σ (mkRevision (sha L) (uri L) t1) (mkRevision (sha R) (uri R) t2)
                    S' repo ln (Some v) (es ++ [Invoked d; Settled d]))).
Proof.
  intros Hσ out. subst out. unfold presentation.
  destruct (acquisition_later σ L R S repo ln repoPath Hσ) as (es & Hes & Hq & Hu).
  unfold mbind, M_bind.
  destruct (acquisition G (Own 0) (Own 1) repoPath σ) as [[[lhs rhs]|e] σ1] eqn:Ea;
    cbn in Hes, Hu; subst σ1; [|left; eauto].
  destruct (Hu _ eq_refl) as [[uL HuL] [uR HuR]]. clear Hu.
  cbv [get_sha revisionAt load mbind M_bind mret M_ret answer later drafts
       own caller locals trace fst snd];
    cbn [lookup list_lookup sha].
  destruct (leftSuffix G lhsSha (sha L) (sha R) lhs rhs
              (rightSuffix G rhsSha (sha R) lhs rhs)) as [[lhsSuffix rhsSuffix]|e] eqn:El.
  2: { left. eexists _, es. split; [reflexivity|done]. }
  match goal with |- context [titles G _ _ _ _ _ ?s] =>
    rewrite (titles_run s L R S repo ln uL uR lhs lhsSuffix rhsSuffix eq_refl HuL HuR)
  end.
  cbv [observe later drafts own caller locals trace]. cbn [app].
  match goal with |- context [displayOptions _ ?s] =>
    destruct (displayOptions_run s _ _ S repo ln eq_refl) as [S' ->]
  end.
  match goal with |- context [delegation G _ _ _ _ _ _ _ ?s] =>
    rewrite (delegation_run s _ _ S' repo ln repoPath uL uR lhs rhs _ eq_refl HuL HuR)
  end.
  right.
  exists uL, uR,
    (mkLocals lhsSha rhsSha lhs rhs (rightSuffix G rhsSha (sha R) lhs rhs)
       lhsSuffix rhsSuffix
       (combinedTitle G (leftLabel G (title L) uL lhs lhsSuffix)
          (rightLabel G (title R) uR rhsSuffix))), S', es.
  repeat split; try done.
  destruct σ; unfold later; cbn [caller own locals trace v_lhs v_rhs v_title].
  by rewrite !app_nil_r, <- (assoc_L (++)).
Qed.

(** Lines 101-194, the block under [try], by the same alternative. *)
Lemma body_later σ L R S repo ln repoPath :
  own σ = drafts L R S repo ln →
  let out := body G (Own 3) (Own 0) (Own 1) repoPath σ in
  (∃ e L' R' es,
     out = (Thrown e, later σ L' R' S repo ln (locals σ) es) ∧
     uri L' = uri L ∧ title L' = title L ∧
     uri R' = uri R ∧ title R' = title R ∧ quiet es)
  ∨ (∃ uL uR v c1 c2 S' es,
       uri L = Some uL ∧ uri R = Some uR ∧
       derived G v c1 c2 ∧
       let t1 := leftLabel G (title L) uL (v_lhs v) (v_lhsSuffix v) in
       let t2 := rightLabel G (title R) uR (v_rhsSuffix v) in
       let left := handed G repoPath uL (v_lhs v) in
       let right := handed G repoPath uR (v_rhs v) in
       let d := ExecuteDiff left right (v_title v) S' in
       v_title v = combinedTitle G t1 t2 ∧ quiet es ∧
       out = (executeDiff G left right (v_title v) S',
              later σ (mkRevision c1 (uri L) t1) (mkRevision c2 (uri R) t2)
                    S' repo ln (Some v) (es ++ [Invoked d; Settled d]))).
Proof.
  intros Hσ out. subst out. unfold body, mbind, M_bind.
  destruct (resolution_later σ L R S repo ln repoPath Hσ)
    as (L1 & R1 & es1 & H1 & HuL & HtL & HuR & HtR & Hq1).
  destruct (resolution G (Own 0) (Own 1) repoPath σ) as [[[lhsSha rhsSha]|e] σ1];
    cbn in H1; subst σ1.
  2: { left. eexists e, L1, R1, es1. done. }
  destruct (classification_later (later σ L1 R1 S repo ln (locals σ) es1)
              L1 R1 S repo ln repoPath rhsSha eq_refl)
    as (R2 & es2 & H2 & HuR2 & HtR2 & Hq2).
  destruct (classification G (Own 1) repoPath rhsSha _) as [[rhsSha'|e] σ2];
    cbn in H2; subst σ2.
  2: { left. eexists e, L1, R2, (es1 ++ es2).
       split; [|split_and!; try congruence].
       - destruct σ; unfold later; cbn. by rewrite <- (assoc_L (++)).
       - intros a b t o [?|?]%elem_of_app; [by eapply Hq1 | by eapply Hq2]. }
  assert (Hq : quiet (es1 ++ es2)).
  { intros a b t o [?|?]%elem_of_app; [by eapply Hq1 | by eapply Hq2]. }
  match goal with |- context [presentation G _ _ _ _ ?x ?y ?s] =>
    destruct (presentation_later s L1 R2 S repo ln repoPath x y eq_refl)
      as [(e & es3 & -> & Hq3)|(uL & uR & v & S' & es3 & HL & HR & _ & _ & Hd & Ht & Hq3 & ->)]
  end.
  - left. eexists e, L1, R2, ((es1 ++ es2) ++ es3).
    split; [|split_and!; try congruence].
    + destruct σ; unfold later; cbn. by rewrite <- !(assoc_L (++)).
    + intros a b t o [?|?]%elem_of_app; [by eapply Hq | by eapply Hq3].
  - right. exists uL, uR, v, (sha L1), (sha R2), S', ((es1 ++ es2) ++ es3).
    rewrite HuL in HL. rewrite HuR2, HuR in HR.
    rewrite HtL, HtR2, HtR, HuL, HuR2, HuR in *.
    split_and!; try done.
    + intros a b t o [?|?]%elem_of_app; [by eapply Hq | by eapply Hq3].
    + destruct σ; unfold later; cbn. by rewrite <- !(assoc_L (++)).
Qed.

(** Lines 91-98. *)
Lemma execute_undefined h :
  execute G None (enter h) =
    (Ok None,
     mkState h
       [OArgs emptyArgs; ORevision emptyRevision; ORevision emptyRevision;
        OShowOptions emptyShowOptions;
        OArgs (mkArgs (Some (Own 1)) (Some (Own 2)) None None (Some (Own 3)))]
       None []).
Proof. reflexivity. Qed.

Lemma execute_copied h a :
  execute G (Some a) (enter h) =
    match repoPath (request h (Some a)) with
    | Some repoPath =>
        try_catch (body G (Own 3) (Own 0) (Own 1) repoPath) (handler G) (copied h a)
    | None => (Ok None, copied h a)
    end.
Proof.
  unfold execute, copy, copied, leftOf, rightOf, optionsOf, request.
  cbv [mbind M_bind mret M_ret spreadArgs spreadRevision spreadShowOptions
       alloc argsAt load drafts own caller locals trace enter fst snd].
  cbn [length app lookup list_lookup repoPath lhs rhs].
  by destruct (repoPath _).
Qed.

Lemma try_catch_run (m : M any) σ out σ' :
  m σ = (out, σ') →
  try_catch m (handler G) σ = (caught G out, record (caught_events out) σ').
Proof.
  intros Hm. unfold try_catch. rewrite Hm. destruct out as [x|e]; cbn.
  - destruct σ'. unfold record; cbn. by rewrite app_nil_r.
  - apply handler_run.
Qed.

(** Lines 91-200 when the request names a repository: either the block
    under [try] throws before the labels exist, or it ends with the call
    to the viewer. *)
Lemma execute_later h a rp :
  repoPath (request h (Some a)) = Some rp →
  let L := leftOf h (Some a) in
  let R := rightOf h (Some a) in
  let repo := repoPath (request h (Some a)) in
  let ln := line (request h (Some a)) in
  (∃ e L' R' es,
     body G (Own 3) (Own 0) (Own 1) rp (copied h a) =
       (Thrown e, mkState h (drafts L' R' (optionsOf h (Some a)) repo ln) None es) ∧
     execute G (Some a) (enter h) =
       (showGenericErrorMessage G "Unable to open compare",
        mkState h (drafts L' R' (optionsOf h (Some a)) repo ln) None
                (es ++ reported e)) ∧
     uri L' = uri L ∧ title L' = title L ∧
     uri R' = uri R ∧ title R' = title R ∧ quiet es)
  ∨ (∃ uL uR v c1 c2 S' es,
       uri L = Some uL ∧ uri R = Some uR ∧
       derived G v c1 c2 ∧
       let t1 := leftLabel G (title L) uL (v_lhs v) (v_lhsSuffix v) in
       let t2 := rightLabel G (title R) uR (v_rhsSuffix v) in
       let left := handed G rp uL (v_lhs v) in
       let right := handed G rp uR (v_rhs v) in
       let d := ExecuteDiff left right (v_title v) S' in
       let out := executeDiff G left right (v_title v) S' in
       let objects :=
         drafts (mkRevision c1 (uri L) t1) (mkRevision c2 (uri R) t2) S' repo ln in
       v_title v = combinedTitle G t1 t2 ∧ quiet es ∧
       body G (Own 3) (Own 0) (Own 1) rp (copied h a) =
         (out, mkState h objects (Some v) (es ++ [Invoked d; Settled d])) ∧
       execute G (Some a) (enter h) =
         (caught G out,
          mkState h objects (Some v)
                  (es ++ [Invoked d; Settled d] ++ caught_events out))).
Proof.
  intros Hrepo L R repo ln.
  rewrite execute_copied, Hrepo.
  destruct (body_later (copied h a) L R (optionsOf h (Some a)) repo ln rp eq_refl)
    as [(e & L' & R' & es & Hb & ?)|(uL & uR & v & c1 & c2 & S' & es & ? & ? & ? & ? & ? & Hb)].
  - left. exists e, L', R', es. split; [done|]. split; [|done].
    by rewrite (try_catch_run _ _ _ _ Hb).
  - right. exists uL, uR, v, c1, c2, S', es. split_and!; try done.
    rewrite (try_catch_run _ _ _ _ Hb). unfold record, later, copied; cbn.
    by rewrite <- (assoc_L (++)).
Qed.

End Stages.

(** ** Runs with known answers *)

Section Answers.
Context (G : Collaborators).

(** Lines 101-111 when both lookups are answered. *)
Lemma resolution_run σ L R S repo ln rp x1 x2 :
  own σ = drafts L R S repo ln →
  resolveReference G rp (sha L) (uri L) = Ok x1 →
  resolveReference G rp (sha R) (uri R) = Ok x2 →
  let c1 := ResolveReference rp (sha L) (uri L) in
  let c2 := ResolveReference rp (sha R) (uri R) in
  resolution G (Own 0) (Own 1) rp σ =
    (Ok (if negb (equals (Some x1) (deletedOrMissingSha G)) then Some x1 else sha L,
         sha R),
     later σ (mkRevision (Some x1) (uri L) (title L))
             (mkRevision (Some x2) (uri R) (title R)) S repo ln (locals σ)
             [Invoked c1; Settled c1; Invoked c2; Settled c2]).
Proof.
  destruct σ as [c o lc tr], L as [s1 u1 t1], R as [s2 u2 t2]; cbn.
  intros -> H1 H2. run. rewrite H1. run. rewrite H2. run.
  rewrite <- !(assoc_L (++)); cbn [app equals].
  by destruct (String.eqb x1 _).
Qed.

(** Lines 101-111 when the first lookup is rejected: the second one is
    not made. *)
Lemma resolution_rejected σ L R S repo ln rp e :
  own σ = drafts L R S repo ln →
  resolveReference G rp (sha L) (uri L) = Thrown e →
  let c1 := ResolveReference rp (sha L) (uri L) in
  resolution G (Own 0) (Own 1) rp σ =
    (Thrown e, later σ L R S repo ln (locals σ) [Invoked c1; Settled c1]).
Proof.
  destruct σ as [c o lc tr], L as [s1 u1 t1], R as [s2 u2 t2]; cbn.
  intros -> H1. run. rewrite H1. by run.
Qed.

(** Lines 113-126 when the revision is concrete and the file is reported
    deleted: the revision of the side becomes the sentinel and [rhsSha]
    keeps its value. *)
Lemma classification_deleted σ L R S repo ln rp rhsSha x u s :
  own σ = drafts L R S repo ln →
  sha R = Some x → uri R = Some u →
  x ≠ "" → x ≠ deletedOrMissingSha G →
  getFileStatusForCommit G rp (fsPath u) (Some x) = Ok (Some s) →
  status s = "D" →
  let c := GetFileStatusForCommit rp (fsPath u) (Some x) in
  classification G (Own 1) rp rhsSha σ =
    (Ok rhsSha,
     later σ L (mkRevision (Some (deletedOrMissingSha G)) (uri R) (title R))
           S repo ln (locals σ) [Invoked c; Settled c]).
Proof.
  destruct σ as [c o lc tr], R as [s2 u2 t2]; cbn.
  intros -> -> -> Hx Hs Hf HD. run. cbn [truthy equals].
  apply String.eqb_neq in Hx, Hs. rewrite Hx, Hs. run.
  rewrite Hf. run. rewrite HD. by run.
Qed.

End Answers.

(** ** The claims *)

(** C9.  The caller's argument object is never mutated: whatever the
    request and the collaborators, the objects that exist when [execute]
    is entered are the same, field for field, when it ends.  Lines 92-97
    copy the arguments, the two sides and the display options, and every
    later write goes to a copy. *)
Theorem C9_caller_objects_unchanged G h a :
  caller (final G h a) = h ∧
  ∀ n, load (Caller n) (final G h a) = h !! n.
Proof.
  assert (caller (final G h a) = h) as Hc; [|split; [done|intros n; cbn; by rewrite Hc]].
  unfold final. destruct a as [a|]; [|by rewrite execute_undefined].
  destruct (repoPath (request h (Some a))) as [rp|] eqn:Hrepo.
  - destruct (execute_later G h a rp Hrepo)
      as [(e & L' & R' & es & _ & -> & _)
         |(uL & uR & v & c1 & c2 & S' & es & _ & _ & _ & _ & _ & _ & ->)]; done.
  - by rewrite execute_copied, Hrepo.
Qed.

(** C8.  The location of a side is never reassigned: when [execute] ends,
    the copy of each side that the invocation works on has the [uri] that
    the side had in the request.  A side has no other field than [sha],
    [uri] and [title], so [sha] and [title] are all that can differ. *)
Theorem C8_location_never_reassigned G h a :
  ∃ L' R',
    load (leftCopy a) (final G h a) = Some (ORevision L') ∧
    load (rightCopy a) (final G h a) = Some (ORevision R') ∧
    uri L' = uri (leftOf h a) ∧
    uri R' = uri (rightOf h a).
Proof.
  unfold final. destruct a as [a|].
  2: { rewrite execute_undefined. by eexists _, _. }
  destruct (repoPath (request h (Some a))) as [rp|] eqn:Hrepo.
  - destruct (execute_later G h a rp Hrepo)
      as [(e & L' & R' & es & _ & -> & ? & _ & ? & _)
         |(uL & uR & v & c1 & c2 & S' & es & _ & _ & _ & _ & _ & _ & ->)];
      by eexists _, _.
  - rewrite execute_copied, Hrepo. by eexists _, _.
Qed.

Lemma length_zero_empty (s : string) : (String.length s =? 0) = true ↔ s = "".
Proof. destruct s; cbn; split; congruence. Qed.

Lemma in_quiet_settled es d e :
  quiet es → e ∈ es ++ [Invoked d; Settled d] → ∀ a b t o,
  e = Invoked (ExecuteDiff a b t o) → d = ExecuteDiff a b t o.
Proof.
  intros Hq [Hin|Hin]%elem_of_app a b t o ->.
  - by apply Hq in Hin.
  - apply elem_of_cons in Hin as [Hin|Hin]; [congruence|].
    apply elem_of_cons in Hin as [Hin|Hin]; [discriminate|].
    by apply elem_of_nil in Hin.
Qed.

Lemma reported_quiet ex : quiet (reported ex).
Proof. unfold reported. quiet_done. Qed.

Lemma caught_events_quiet out : quiet (caught_events out).
Proof. destruct out; [quiet_done | apply reported_quiet]. Qed.

(** C6.  Whenever the viewer is called, it is called with two references:
    for each side the content reference that was acquired or, when none
    was, the reference built from the missing sentinel, the path of that
    side and the repository. *)
Theorem C6_viewer_receives_two_references G h a left right t o :
  Invoked (ExecuteDiff left right t o) ∈ trace (final G h a) →
  ∃ rp uL uR v,
    repoPath (request h a) = Some rp ∧
    uri (leftOf h a) = Some uL ∧ uri (rightOf h a) = Some uR ∧
    locals (final G h a) = Some v ∧
    left = handed G rp uL (v_lhs v) ∧
    right = handed G rp uR (v_rhs v) ∧
    (v_lhs v = None →
     left = toRevisionUri G (deletedOrMissingSha G) (fsPath uL) rp) ∧
    (v_rhs v = None →
     right = toRevisionUri G (deletedOrMissingSha G) (fsPath uR) rp).
Proof.
  unfold final. destruct a as [a|].
  2: { rewrite execute_undefined. cbn. by intros ?%elem_of_nil. }
  destruct (repoPath (request h (Some a))) as [rp|] eqn:Hrepo.
  2: { rewrite execute_copied, Hrepo. cbn. by intros ?%elem_of_nil. }
  destruct (execute_later G h a rp Hrepo)
    as [(e & L' & R' & es & _ & -> & _ & _ & _ & _ & Hq)
       |(uL & uR & v & c1 & c2 & S' & es & HL & HR & _ & _ & Hq & _ & ->)];
    cbn [snd trace locals].
  - intros [Hin|Hin]%elem_of_app; [by apply Hq in Hin | by apply reported_quiet in Hin].
  - rewrite (assoc_L (++)). intros [Hin|Hin]%elem_of_app.
    2: { by apply caught_events_quiet in Hin. }
    pose proof (in_quiet_settled _ _ _ Hq Hin _ _ _ _ eq_refl) as Hd.
    injection Hd as <- <- _ _.
    exists rp, uL, uR, v. split_and!; try done.
    + by intros ->.
    + by intros ->.
Qed.

(** C7.  When a step of the block under [try] throws, the exception is
    caught, logged with the names of the class and of the operation, and
    reported with the one message "Unable to open compare", whose
    completion is the completion of [execute]; these two calls are all
    that happens after the failure.  The viewer was called before the
    failure only when the exception is the one its own call ended with,
    and then that call is the last thing that happened. *)
Theorem C7_failure_is_caught_and_reported G h a rp ex σ1 :
  repoPath (request h (Some a)) = Some rp →
  body G (Own 3) (Own 0) (Own 1) rp (copied h a) = (Thrown ex, σ1) →
  execute G (Some a) (enter h) =
    (showGenericErrorMessage G "Unable to open compare",
     record [Invoked (LoggerError ex "DiffWithCommand" "getVersionedFile");
             Invoked (ShowGenericErrorMessage "Unable to open compare")] σ1) ∧
  ∀ left right t o,
    Invoked (ExecuteDiff left right t o) ∈ trace σ1 →
    executeDiff G left right t o = Thrown ex ∧
    ∃ es, quiet es ∧
          trace σ1 = es ++ [Invoked (ExecuteDiff left right t o);
                            Settled (ExecuteDiff left right t o)].
Proof.
  intros Hrepo Hbody. split.
  { rewrite execute_copied, Hrepo. by rewrite (try_catch_run _ _ _ _ _ Hbody). }
  destruct (execute_later G h a rp Hrepo)
    as [(e & L' & R' & es & Hb & _ & _ & _ & _ & _ & Hq)
       |(uL & uR & v & c1 & c2 & S' & es & _ & _ & _ & _ & Hq & Hb & _)];
    rewrite Hb in Hbody; injection Hbody as Hout <-; cbn [trace].
  - intros left right t o Hin. by apply Hq in Hin.
  - intros left right t o Hin.
    pose proof (in_quiet_settled _ _ _ Hq Hin _ _ _ _ eq_refl) as Hd.
    injection Hd as <- <- <- <-. split; [done|]. by exists es.
Qed.

Lemma rightLabel_unlabelled G u rhsSuffix :
  rightLabel G None u rhsSuffix = Some (label (basename G (fsPath u)) rhsSuffix).
Proof. reflexivity. Qed.

Lemma leftLabel_unlabelled G u lhs lhsSuffix :
  leftLabel G None u lhs lhsSuffix = None ↔ lhs = None ∧ lhsSuffix = "".
Proof.
  unfold leftLabel. destruct lhs as [x|], lhsSuffix as [|c s]; cbn; split;
    first [done | by intros []].
Qed.

Lemma combinedTitle_right G t1 x : combinedTitle G t1 (Some x) ≠ None.
Proof. by destruct t1. Qed.

Lemma combinedTitle_alone G t2 : combinedTitle G None t2 = t2.
Proof. by destruct t2. Qed.


(** C4, amended.  When the left content reference is absent, the revision
    of the right side is empty and the right content reference is
    present: the left suffix is "not in " followed by the left base value
    of line 149, which is the shortened [lhsSha] unless the revision of
    the left side is the sentinel, and the empty string when it is; the
    right suffix, which lines 133-147 had derived as "added in " followed
    by its base value, is the empty string. *)
Theorem C4_not_in_left_clears_right G h a v L' R' c :
  locals (final G h a) = Some v →
  load (leftCopy a) (final G h a) = Some (ORevision L') →
  load (rightCopy a) (final G h a) = Some (ORevision R') →
  v_lhs v = None → sha R' = Some "" → v_rhs v = Some c →
  v_lhsSuffix v = "not in " +:+ leftBase G (v_lhsSha v) (sha L') ∧
  v_rhsSuffix v = "" ∧
  v_rhsSuffix0 v = "added in " +:+ rightBase G (v_rhsSha v) ∧
  (sha L' ≠ Some (deletedOrMissingSha G) →
   leftBase G (v_lhsSha v) (sha L') = or_empty (shortenSha G (v_lhsSha v) None)) ∧
  (sha L' = Some (deletedOrMissingSha G) →
   leftBase G (v_lhsSha v) (sha L') = "").
Proof.
  unfold final. destruct a as [a|].
  2: { by rewrite execute_undefined. }
  destruct (repoPath (request h (Some a))) as [rp|] eqn:Hrepo.
  2: { by rewrite execute_copied, Hrepo. }
  destruct (execute_later G h a rp Hrepo)
    as [(e & L1 & R1 & es & _ & -> & _)
       |(uL & uR & v' & c1 & c2 & S' & es & _ & _ & [Hr Hl] & _ & _ & _ & ->)];
    [done|].
  cbn. intros [= ->] [= <-] [= <-] Hlhs Hc2 Hrhs. cbn in Hc2 |- *. subst c2.
  rewrite Hlhs, Hrhs in Hr, Hl. cbn in Hr, Hl. injection Hl as <- <-.
  split_and!; try done.
  - unfold leftBase, equals. intros Hne. destruct c1 as [x|]; [|done].
    destruct (String.eqb_spec x (deletedOrMissingSha G)); [congruence|done].
  - intros ->. unfold leftBase, equals. by rewrite String.eqb_refl.
Qed.

(** C5, amended.  When both content references are absent and the
    revision of the right side is empty: the left suffix is "deleted in "
    followed by the left base value of line 149 (the shortened [lhsSha],
    or the empty string when the revision of the left side is the
    sentinel) and by a closing parenthesis that nothing opens; the right
    suffix is left as lines 133-147 derived it. *)
Theorem C5_deleted_in_left_keeps_parenthesis G h a v L' R' :
  locals (final G h a) = Some v →
  load (leftCopy a) (final G h a) = Some (ORevision L') →
  load (rightCopy a) (final G h a) = Some (ORevision R') →
  v_lhs v = None → sha R' = Some "" → v_rhs v = None →
  v_lhsSuffix v = "deleted in " +:+ leftBase G (v_lhsSha v) (sha L') +:+ ")" ∧
  v_rhsSuffix v = v_rhsSuffix0 v ∧
  (sha L' ≠ Some (deletedOrMissingSha G) →
   leftBase G (v_lhsSha v) (sha L') = or_empty (shortenSha G (v_lhsSha v) None)) ∧
  (sha L' = Some (deletedOrMissingSha G) →
   leftBase G (v_lhsSha v) (sha L') = "").
Proof.
  unfold final. destruct a as [a|].
  2: { by rewrite execute_undefined. }
  destruct (repoPath (request h (Some a))) as [rp|] eqn:Hrepo.
  2: { by rewrite execute_copied, Hrepo. }
  destruct (execute_later G h a rp Hrepo)
    as [(e & L1 & R1 & es & _ & -> & _)
       |(uL & uR & v' & c1 & c2 & S' & es & _ & _ & [Hr Hl] & _ & _ & _ & ->)];
    [done|].
  cbn. intros [= ->] [= <-] [= <-] Hlhs Hc2 Hrhs. cbn in Hc2 |- *. subst c2.
  rewrite Hlhs, Hrhs in Hl. cbn in Hl. injection Hl as <- <-.
  split_and!; try done.
  - unfold leftBase, equals. intros Hne. destruct c1 as [x|]; [|done].
    destruct (String.eqb_spec x (deletedOrMissingSha G)); [congruence|done].
  - intros ->. unfold leftBase, equals. by rewrite String.eqb_refl.
Qed.

(** C3, amended.  When the revision of the right side resolves to a
    concrete revision at which the file is reported deleted, the revision
    of the side ends as the sentinel, and [rhsSha] still holds the
    revision the request came with.  When moreover no content reference
    is acquired for the right side and the sentinel does not count as
    uncommitted, the right suffix is "deleted in " followed by the
    shortened [rhsSha] if that is not empty, and "not in Working Tree" if
    it is. *)
Theorem C3_deleted_at_resolved_revision G h a rp uR x1 x2 s :
  repoPath (request h (Some a)) = Some rp →
  uri (rightOf h (Some a)) = Some uR →
  resolveReference G rp (sha (leftOf h (Some a))) (uri (leftOf h (Some a))) = Ok x1 →
  resolveReference G rp (sha (rightOf h (Some a))) (uri (rightOf h (Some a))) = Ok x2 →
  x2 ≠ "" → x2 ≠ deletedOrMissingSha G →
  getFileStatusForCommit G rp (fsPath uR) (Some x2) = Ok (Some s) →
  status s = "D" →
  ∃ R', load (rightCopy (Some a)) (final G h (Some a)) = Some (ORevision R') ∧
        sha R' = Some (deletedOrMissingSha G) ∧
        ∀ v, locals (final G h (Some a)) = Some v →
             v_rhsSha v = sha (rightOf h (Some a)) ∧
             (v_rhs v = None →
              isUncommitted G (Some (deletedOrMissingSha G)) = false →
              v_rhsSuffix v = v_rhsSuffix0 v ∧
              (rightBase G (v_rhsSha v) ≠ "" →
               v_rhsSuffix0 v = "deleted in " +:+ rightBase G (v_rhsSha v)) ∧
              (rightBase G (v_rhsSha v) = "" →
               v_rhsSuffix0 v = "not in Working Tree")).
Proof.
  intros Hrepo HuR H1 H2 Hx Hs Hf HD.
  unfold final. rewrite execute_copied, Hrepo.
  set (L := leftOf h (Some a)) in *. set (R := rightOf h (Some a)) in *.
  set (S := optionsOf h (Some a)).
  set (repo := repoPath (request h (Some a))). set (ln := line (request h (Some a))).
  assert (Hbody : ∃ lhsSha σ2,
    own σ2 = drafts (mkRevision (Some x1) (uri L) (title L))
                    (mkRevision (Some (deletedOrMissingSha G)) (uri R) (title R))
                    S repo ln ∧
    locals σ2 = None ∧
    body G (Own 3) (Own 0) (Own 1) rp (copied h a) =
      presentation G (Own 3) (Own 0) (Own 1) rp lhsSha (sha R) σ2).
  { unfold body, mbind, M_bind.
    rewrite (resolution_run G (copied h a) L R S repo ln rp x1 x2 eq_refl H1 H2).
    match goal with |- context [classification G _ _ _ ?σ] =>
      rewrite (classification_deleted G σ _ (mkRevision (Some x2) (uri R) (title R))
                 S repo ln rp (sha R) x2 uR s eq_refl eq_refl HuR Hx Hs Hf HD)
    end.
    eexists _, _. split; [|split]; [| |reflexivity]; reflexivity. }
  destruct Hbody as (lhsSha & σ2 & Hσ2 & Hl2 & Hbody).
  destruct (presentation_later G σ2 _ _ S repo ln rp lhsSha (sha R) Hσ2)
    as [(e & es & Hp & _)
       |(uL & uR' & v & S' & es & _ & _ & _ & HvR & [Hr Hl] & _ & _ & Hp)];
    rewrite <- Hbody in Hp; rewrite (try_catch_run _ _ _ _ _ Hp).
  - eexists. split_and!; [reflexivity..|]. cbn. by rewrite Hl2.
  - eexists. split_and!; [reflexivity..|]. cbn. intros ? [= <-].
    split; [done|]. intros Hrhs Hunc. rewrite Hrhs in Hr, Hl. cbn in Hr, Hl.
    unfold rightSuffix in Hr. rewrite Hunc in Hr. cbn in Hr.
    rewrite String.eqb_refl, andb_true_r in Hr.
    split_and!.
    + unfold leftSuffix in Hl. destruct (v_lhs v); cbn in Hl; [by injection Hl|].
      destruct (String.length (deletedOrMissingSha G) =? 0); by injection Hl.
    + intros Hne. rewrite Hr.
      destruct (String.length _ =? 0) eqn:E; [|done].
      by apply length_zero_empty in E.
    + intros He. rewrite Hr, He. done.
Qed.

(** ** Concrete runs *)

(** What the runs used below derive. *)
Example deleted_at_HEAD :
  let h := Double.objects (Some "/repo") (Some (Double.side "HEAD~1" Double.path))
                          (Some (Double.side "HEAD" Double.path)) in
  v_rhsSuffix (Double.localsOf Double.pruning h) = "deleted in HEAD" ∧
  sha (Double.rightAfter Double.pruning h) = Some Double.sentinel.
Proof. split; evaluated. Qed.

Example deleted_working_copy :
  v_rhsSuffix (Double.localsOf Double.deleting Double.working) = "not in Working Tree" ∧
  v_rhsSha (Double.localsOf Double.deleting Double.working) = Some "" ∧
  sha (Double.rightAfter Double.deleting Double.working) = Some Double.sentinel.
Proof. split_and!; evaluated. Qed.

Example missing_on_the_left :
  v_lhsSuffix (Double.localsOf Double.plain Double.added) = "not in " ∧
  v_rhsSuffix0 (Double.localsOf Double.plain Double.added) = "added in " ∧
  v_rhsSuffix (Double.localsOf Double.plain Double.added) = "" ∧
  v_title (Double.localsOf Double.plain Double.added) = Some "a.ts (not in ) ↔ a.ts".
Proof. split_and!; evaluated. Qed.

Example missing_on_both_sides :
  v_lhsSuffix (Double.localsOf Double.empty Double.added) = "deleted in )" ∧
  v_lhsSuffix (Double.localsOf Double.empty Double.working) = "deleted in HEAD)".
Proof. split; evaluated. Qed.

(** C3, as stated, fails.  The request compares the working copy with
    HEAD; the working copy resolves to a commit at which the file is
    reported deleted.  The shortened [rhsSha] is empty, and the suffix is
    "not in Working Tree". *)
Lemma C3_counterexample : ¬ C3_as_stated Double.deleting Double.working (Caller 0).
Proof.
  intros H.
  destruct (H "/repo" (Double.file Double.path) "HEAD" Double.head
              (mkStatus "D" Double.path))
    as (R' & _ & _ & Hv); try evaluated; try discriminate.
  destruct (Hv (Double.localsOf Double.deleting Double.working)) as [E|E];
    try evaluated; vm_compute in E; discriminate E.
Qed.

(** C3 on the request that compares HEAD with its parent, in a repository
    where the file is deleted at HEAD. *)
Lemma C3_witness :
  let G := Double.pruning in
  let h := Double.objects (Some "/repo") (Some (Double.side "HEAD~1" Double.path))
                          (Some (Double.side "HEAD" Double.path)) in
  ∃ R', load (rightCopy (Some (Caller 0))) (final G h (Some (Caller 0)))
          = Some (ORevision R') ∧
        sha R' = Some (deletedOrMissingSha G) ∧
        ∀ v, locals (final G h (Some (Caller 0))) = Some v →
             v_rhsSha v = sha (rightOf h (Some (Caller 0))) ∧
             (v_rhs v = None →
              isUncommitted G (Some (deletedOrMissingSha G)) = false →
              v_rhsSuffix v = v_rhsSuffix0 v ∧
              (rightBase G (v_rhsSha v) ≠ "" →
               v_rhsSuffix0 v = "deleted in " +:+ rightBase G (v_rhsSha v)) ∧
              (rightBase G (v_rhsSha v) = "" →
               v_rhsSuffix0 v = "not in Working Tree")).
Proof.
  cbv zeta.
  apply (C3_deleted_at_resolved_revision Double.pruning _ (Caller 0) "/repo"
           (Double.file Double.path) "HEAD~1" "HEAD" (mkStatus "D" Double.path));
    try evaluated; discriminate.
Defined.

(** C4, as stated, fails.  The request compares the working copy with a
    revision in which the file is missing: the left suffix is "not in "
    with nothing after it. *)
Lemma C4_counterexample : ¬ C4_as_stated Double.plain Double.added (Caller 0).
Proof.
  intros H.
  destruct (H (Double.localsOf Double.plain Double.added)
              (Double.leftAfter Double.plain Double.added)
              (Double.rightAfter Double.plain Double.added)
              (Double.file Double.path)) as [[E|E] _];
    try evaluated; vm_compute in E; discriminate E.
Qed.

Lemma C4_witness :
  let G := Double.plain in
  let h := Double.added in
  let v := Double.localsOf G h in
  let L' := Double.leftAfter G h in
  v_lhsSuffix v = "not in " +:+ leftBase G (v_lhsSha v) (sha L') ∧
  v_rhsSuffix v = "" ∧
  v_rhsSuffix0 v = "added in " +:+ rightBase G (v_rhsSha v) ∧
  (sha L' ≠ Some (deletedOrMissingSha G) →
   leftBase G (v_lhsSha v) (sha L') = or_empty (shortenSha G (v_lhsSha v) None)) ∧
  (sha L' = Some (deletedOrMissingSha G) →
   leftBase G (v_lhsSha v) (sha L') = "").
Proof.
  cbv zeta.
  apply (C4_not_in_left_clears_right Double.plain Double.added (Some (Caller 0))
           (Double.localsOf Double.plain Double.added)
           (Double.leftAfter Double.plain Double.added)
           (Double.rightAfter Double.plain Double.added)
           (Double.file Double.path)); evaluated.
Defined.

(** C5, as stated, fails.  The same request in a repository where the
    file has no content anywhere: the left suffix is "deleted in )". *)
Lemma C5_counterexample : ¬ C5_as_stated Double.empty Double.added (Caller 0).
Proof.
  intros H.
  destruct (H (Double.localsOf Double.empty Double.added)
              (Double.leftAfter Double.empty Double.added)
              (Double.rightAfter Double.empty Double.added)) as [E|E];
    try evaluated; vm_compute in E; discriminate E.
Qed.

Lemma C5_witness :
  let G := Double.empty in
  let h := Double.working in
  let v := Double.localsOf G h in
  let L' := Double.leftAfter G h in
  v_lhsSuffix v = "deleted in " +:+ leftBase G (v_lhsSha v) (sha L') +:+ ")" ∧
  v_rhsSuffix v = v_rhsSuffix0 v ∧
  (sha L' ≠ Some (deletedOrMissingSha G) →
   leftBase G (v_lhsSha v) (sha L') = or_empty (shortenSha G (v_lhsSha v) None)) ∧
  (sha L' = Some (deletedOrMissingSha G) →
   leftBase G (v_lhsSha v) (sha L') = "").
Proof.
  cbv zeta.
  apply (C5_deleted_in_left_keeps_parenthesis Double.empty Double.working
           (Some (Caller 0))
           (Double.localsOf Double.empty Double.working)
           (Double.leftAfter Double.empty Double.working)
           (Double.rightAfter Double.empty Double.working)); evaluated.
Defined.

(** The part of C1 that the code has: without repository the command does
    nothing, whatever else the request holds. *)
Lemma execute_no_repository G h a :
  repoPath (request h a) = None →
  (execute G a (enter h)).1 = Ok None ∧
  trace (final G h a) = [] ∧
  caller (final G h a) = h.
Proof.
  unfold final. destruct a as [a|]; [|by rewrite execute_undefined].
  intros Hrepo. by rewrite execute_copied, Hrepo.
Qed.

(** C1.  The request names a repository and a right side and has no left
    side.  Line 94 makes [args.lhs] the object [{}], so that the test of
    line 98 lets the request through: both revisions are looked up, with
    an undefined revision and an undefined location for the left side;
    reading the path of that location throws, and the user is shown the
    message "Unable to open compare". *)
Theorem C1_missing_left_side_is_looked_up :
  let G := Double.plain in
  let h := Double.unsided in
  let a := Some (Caller 0) in
  let right := Some (Double.file Double.path) in
  lhs (request h a) = None ∧
  is_Some (repoPath (request h a)) ∧
  is_Some (rhs (request h a)) ∧
  (execute G a (enter h)).1 = Ok None ∧
  trace (final G h a) =
    [Invoked (ResolveReference "/repo" None None);
     Settled (ResolveReference "/repo" None None);
     Invoked (ResolveReference "/repo" (Some "") right);
     Settled (ResolveReference "/repo" (Some "") right);
     Invoked (LoggerError (TypeError "Cannot read property of undefined")
                          "DiffWithCommand" "getVersionedFile");
     Invoked (ShowGenericErrorMessage "Unable to open compare")].
Proof. cbv zeta. split_and!; [evaluated|by eexists|by eexists|evaluated|evaluated]. Qed.

(** Lines 104-107 on every request: the second lookup is made when the
    command has resumed from the first, and not at all when the first is
    rejected. *)
Lemma resolution_in_sequence G σ L R S repo ln rp :
  own σ = drafts L R S repo ln →
  let c1 := ResolveReference rp (sha L) (uri L) in
  let c2 := ResolveReference rp (sha R) (uri R) in
  ∃ rest,
    trace (resolution G (Own 0) (Own 1) rp σ).2
      = trace σ ++ Invoked c1 :: Settled c1 :: rest ∧
    match resolveReference G rp (sha L) (uri L) with
    | Ok _ => rest = [Invoked c2; Settled c2]
    | Thrown _ => rest = []
    end.
Proof.
  intros Hσ c1 c2.
  destruct (resolveReference G rp (sha L) (uri L)) as [x1|e] eqn:H1.
  - destruct (resolveReference G rp (sha R) (uri R)) as [x2|e] eqn:H2.
    + rewrite (resolution_run G σ L R S repo ln rp x1 x2 Hσ H1 H2). by eexists.
    + destruct σ as [c o lc tr], L as [s1 u1 t1], R as [s2 u2 t2]; cbn in *.
      subst o. run. rewrite H1. run. rewrite H2. run.
      rewrite <- !(assoc_L (++)). by eexists.
  - rewrite (resolution_rejected G σ L R S repo ln rp e Hσ H1). by eexists.
Qed.

(** Whenever the request names a repository, with or without sides, the
    revision of the left side is looked up first. *)
Lemma execute_looks_up G h a rp :
  repoPath (request h (Some a)) = Some rp →
  let c := ResolveReference rp (sha (leftOf h (Some a))) (uri (leftOf h (Some a))) in
  ∃ rest, trace (final G h (Some a)) = Invoked c :: Settled c :: rest.
Proof.
  intros Hrepo c. unfold final. rewrite execute_copied, Hrepo.
  set (σ0 := copied h a).
  set (L := leftOf h (Some a)) in *. set (R := rightOf h (Some a)).
  set (S := optionsOf h (Some a)).
  set (repo := repoPath (request h (Some a))). set (ln := line (request h (Some a))).
  assert (Hσ0 : own σ0 = drafts L R S repo ln) by done.
  assert (∃ rest, trace (body G (Own 3) (Own 0) (Own 1) rp σ0).2
                  = Invoked c :: Settled c :: rest) as [rest Hrest].
  { destruct (resolution_in_sequence G σ0 L R S repo ln rp Hσ0) as (r1 & Ht1 & _).
    change (trace σ0) with (@nil event) in Ht1. cbn [app] in Ht1.
    destruct (resolution_later G σ0 L R S repo ln rp Hσ0) as (L1 & R1 & es1 & H1 & _).
    unfold body, mbind, M_bind.
    destruct (resolution G (Own 0) (Own 1) rp σ0) as [[[lhsSha rhsSha]|e] σ1];
      cbn [snd] in *; [|by eexists].
    subst σ1.
    destruct (classification_later G (later σ0 L1 R1 S repo ln (locals σ0) es1)
                L1 R1 S repo ln rp rhsSha eq_refl)
      as (R2 & es2 & H2 & _).
    destruct (classification G (Own 1) rp rhsSha _) as [[rhsSha'|e] σ2];
      cbn [snd] in *; subst σ2.
    2: { cbn [trace later] in *. rewrite Ht1. by eexists. }
    match goal with |- context [presentation G _ _ _ _ ?x ?y ?s] =>
      destruct (presentation_later G s L1 R2 S repo ln rp x y eq_refl)
        as [(e & es3 & -> & _)|(? & ? & ? & ? & es3 & _ & _ & _ & _ & _ & _ & _ & ->)]
    end; cbn [snd trace later] in *; rewrite Ht1; by eexists. }
  destruct (body G (Own 3) (Own 0) (Own 1) rp σ0) as [out σb] eqn:Hb.
  rewrite (try_catch_run G _ _ _ _ Hb). cbn [snd trace record] in *.
  rewrite Hrest. by eexists.
Qed.

(** C2.  On the request that compares the working copy with HEAD, both
    sides are looked up, one after the other: the command has resumed
    from the lookup of the left side when it makes the lookup of the
    right side, so the two are never pending together.  The two calls of
    lines 128-131 on the same request are.  And in a repository where the
    lookup of the left side is rejected, the lookup of the right side is
    not made. *)
Theorem C2_lookups_run_one_after_the_other :
  let h := Double.working in
  let a := Some (Caller 0) in
  let u := Some (Double.file Double.path) in
  let left := ResolveReference "/repo" (Some "HEAD") u in
  let right := ResolveReference "/repo" (Some "") u in
  let tr := trace (final Double.plain h a) in
  take 4 tr = [Invoked left; Settled left; Invoked right; Settled right] ∧
  inFlightTogether left right tr = false ∧
  inFlightTogether (GetVersionedUri "/repo" Double.path (Some "HEAD"))
                   (GetVersionedUri "/repo" Double.path (Some "")) tr = true ∧
  Invoked left ∈ trace (final Double.broken h a) ∧
  Invoked right ∉ trace (final Double.broken h a).
Proof.
  cbv zeta. split_and!; [evaluated|evaluated|evaluated|among|].
  among.
Qed.

(** The two requests of the specification's scenarios A and B, and a
    viewer that fails. *)
Example scenario_A :
  v_title (Double.localsOf Double.plain Double.working) = Some "a.ts (HEAD) ↔ a.ts".
Proof. evaluated. Qed.

Example scenario_B :
  v_title (Double.localsOf Double.plain Double.introduced)
    = Some "a.ts (added in 4f9d2a7)".
Proof. evaluated. Qed.

Example viewer_fails :
  let d := ExecuteDiff (Double.revisionUri "HEAD" Double.path "/repo")
                       (Double.file Double.path) (Some "a.ts (HEAD) ↔ a.ts")
                       (mkShowOptions (Some Active) None None None) in
  drop 8 (trace (final Double.blind Double.working (Some (Caller 0)))) =
    [Invoked d; Settled d;
     Invoked (LoggerError (Failure "cannot open the editor")
                          "DiffWithCommand" "getVersionedFile");
     Invoked (ShowGenericErrorMessage "Unable to open compare")].
Proof. evaluated. Qed.

(** C6 on the request that compares the working copy with a revision in
    which the file is missing: the viewer gets the placeholder on the
    left. *)
Lemma C6_witness :
  let G := Double.plain in
  let h := Double.added in
  let a := Some (Caller 0) in
  let left := Double.revisionUri Double.sentinel Double.path "/repo" in
  ∃ rp uL uR v,
    repoPath (request h a) = Some rp ∧
    uri (leftOf h a) = Some uL ∧ uri (rightOf h a) = Some uR ∧
    locals (final G h a) = Some v ∧
    left = handed G rp uL (v_lhs v) ∧
    Double.file Double.path = handed G rp uR (v_rhs v) ∧
    (v_lhs v = None →
     left = toRevisionUri G (deletedOrMissingSha G) (fsPath uL) rp) ∧
    (v_rhs v = None →
     Double.file Double.path = toRevisionUri G (deletedOrMissingSha G) (fsPath uR) rp).
Proof.
  cbv zeta.
  apply (C6_viewer_receives_two_references Double.plain Double.added (Some (Caller 0))
           (Double.revisionUri Double.sentinel Double.path "/repo")
           (Double.file Double.path)
           (Some "a.ts (not in ) ↔ a.ts")
           (mkShowOptions (Some Active) None None None)).
  among.
Defined.

(** C7 in a repository that cannot be read. *)
Lemma C7_witness :
  let G := Double.broken in
  let h := Double.working in
  let ex := Failure "fatal: not a git repository" in
  let σ1 := (body G (Own 3) (Own 0) (Own 1) "/repo" (copied h (Caller 0))).2 in
  execute G (Some (Caller 0)) (enter h) =
    (showGenericErrorMessage G "Unable to open compare",
     record [Invoked (LoggerError ex "DiffWithCommand" "getVersionedFile");
             Invoked (ShowGenericErrorMessage "Unable to open compare")] σ1) ∧
  ∀ left right t o,
    Invoked (ExecuteDiff left right t o) ∈ trace σ1 →
    executeDiff G left right t o = Thrown ex ∧
    ∃ es, quiet es ∧
          trace σ1 = es ++ [Invoked (ExecuteDiff left right t o);
                            Settled (ExecuteDiff left right t o)].
Proof.
  cbv zeta.
  apply (C7_failure_is_caught_and_reported Double.broken Double.working (Caller 0)
           "/repo" (Failure "fatal: not a git repository")); evaluated.
Defined.


(** ** Further properties *)

(** *** The stages, answer by answer *)

Section Cases.
Context (G : Collaborators).
Implicit Types (σ : state) (L R : DiffWithCommandArgsRevision)
  (S : TextDocumentShowOptions).

(** Lines 101-111 when the second lookup is rejected: nothing is
    written. *)
Lemma resolution_rejected_right σ L R S repo ln rp x1 e :
  own σ = drafts L R S repo ln →
  resolveReference G rp (sha L) (uri L) = Ok x1 →
  resolveReference G rp (sha R) (uri R) = Thrown e →
  let c1 := ResolveReference rp (sha L) (uri L) in
  let c2 := ResolveReference rp (sha R) (uri R) in
  resolution G (Own 0) (Own 1) rp σ =
    (Thrown e, later σ L R S repo ln (locals σ)
                     [Invoked c1; Settled c1; Invoked c2; Settled c2]).
Proof.
  destruct σ as [c o lc tr], L as [s1 u1 t1], R as [s2 u2 t2]; cbn.
  intros -> H1 H2. run. rewrite H1. run. rewrite H2. run.
  by rewrite <- !(assoc_L (++)).
Qed.

(** Lines 113-126 when the revision is empty or the sentinel: no lookup,
    no write. *)
Lemma classification_skipped σ L R S repo ln rp rhsSha x :
  own σ = drafts L R S repo ln →
  sha R = Some x → concrete G x = false →
  classification G (Own 1) rp rhsSha σ = (Ok rhsSha, σ).
Proof.
  destruct σ as [c o lc tr], R as [s2 u2 t2]; cbn.
  intros -> -> Hx. run. cbn [truthy equals]. unfold concrete in Hx.
  by rewrite Hx.
Qed.

(** Lines 113-126 when the revision is concrete and the side has no
    location. *)
Lemma classification_unlocated σ L R S repo ln rp rhsSha x :
  own σ = drafts L R S repo ln →
  sha R = Some x → concrete G x = true → uri R = None →
  ∃ e, classification G (Own 1) rp rhsSha σ = (Thrown e, σ).
Proof.
  destruct σ as [c o lc tr], R as [s2 u2 t2]; cbn.
  intros -> -> Hx ->. run. cbn [truthy equals]. unfold concrete in Hx.
  rewrite Hx. run. by eexists.
Qed.

(** Lines 113-126 when the revision is concrete and the lookup is
    answered. *)
Lemma classification_answered σ L R S repo ln rp rhsSha x u found :
  own σ = drafts L R S repo ln →
  sha R = Some x → concrete G x = true → uri R = Some u →
  getFileStatusForCommit G rp (fsPath u) (Some x) = Ok found →
  let c := GetFileStatusForCommit rp (fsPath u) (Some x) in
  classification G (Own 1) rp rhsSha σ =
    (Ok (if deleted found then rhsSha else Some x),
     later σ L
       (mkRevision (Some (if deleted found then deletedOrMissingSha G else x))
                   (uri R) (title R))
       S repo ln (locals σ) [Invoked c; Settled c]).
Proof.
  destruct σ as [c o lc tr], R as [s2 u2 t2]; cbn.
  intros -> -> Hx -> Hf. run. cbn [truthy equals]. unfold concrete in Hx.
  rewrite Hx. run. rewrite Hf. run.
  destruct found as [s|]; cbn [deleted]; run; [|done].
  destruct (String.eqb (status s) "D"); by run.
Qed.

(** Lines 113-126 when the lookup is rejected. *)
Lemma classification_failed σ L R S repo ln rp rhsSha x u e :
  own σ = drafts L R S repo ln →
  sha R = Some x → concrete G x = true → uri R = Some u →
  getFileStatusForCommit G rp (fsPath u) (Some x) = Thrown e →
  let c := GetFileStatusForCommit rp (fsPath u) (Some x) in
  classification G (Own 1) rp rhsSha σ =
    (Thrown e, later σ L R S repo ln (locals σ) [Invoked c; Settled c]).
Proof.
  destruct σ as [c o lc tr], R as [s2 u2 t2]; cbn.
  intros -> -> Hx -> Hf. run. cbn [truthy equals]. unfold concrete in Hx.
  rewrite Hx. run. rewrite Hf. by run.
Qed.

(** Lines 128-131 when both sides have a location. *)
Lemma acquisition_run σ L R S repo ln rp u1 u2 :
  own σ = drafts L R S repo ln →
  uri L = Some u1 → uri R = Some u2 →
  let g1 := GetVersionedUri rp (fsPath u1) (sha L) in
  let g2 := GetVersionedUri rp (fsPath u2) (sha R) in
  let r1 := getVersionedUri G rp (fsPath u1) (sha L) in
  let r2 := getVersionedUri G rp (fsPath u2) (sha R) in
  acquisition G (Own 0) (Own 1) rp σ =
    (joined (secondSettlesFirst G) r1 r2,
     later σ L R S repo ln (locals σ)
           ([Invoked g1; Invoked g2] ++ settlements (secondSettlesFirst G) g1 r1 g2 r2)).
Proof.
  destruct σ as [c o lc tr], L as [s1 v1 t1], R as [s2 v2 t2]; cbn.
  intros -> -> ->. run. unfold joined, settlements.
  destruct (secondSettlesFirst G); run;
    destruct (getVersionedUri G rp (fsPath u1) s1),
             (getVersionedUri G rp (fsPath u2) s2); run;
    by rewrite <- !(assoc_L (++)).
Qed.

(** Lines 128-131 when a side has no location. *)
Lemma acquisition_unlocated σ L R S repo ln rp :
  own σ = drafts L R S repo ln →
  uri L = None ∨ uri R = None →
  ∃ e es, acquisition G (Own 0) (Own 1) rp σ
            = (Thrown e, later σ L R S repo ln (locals σ) es) ∧
          Forall (λ ev, rank (called ev) = 2) es ∧ length (invocations es) ≤ 1.
Proof.
  destruct σ as [c o lc tr], L as [s1 v1 t1], R as [s2 v2 t2]; cbn.
  intros -> Hu. destruct v1 as [u1|].
  - destruct Hu as [? | ->]; [done|]. run.
    eexists _, [_]. split; [reflexivity|].
    split; [by repeat constructor | cbn; lia].
  - run. eexists _, []. split; [by rewrite app_nil_r|]. split; [constructor | cbn; lia].
Qed.

(** Lines 172-182. *)
Lemma displayOptions_exact σ L R S repo ln :
  own σ = drafts L R S repo ln →
  displayOptions (Own 3) σ = (Ok tt, later σ L R (shown S ln) repo ln (locals σ) []).
Proof.
  destruct σ as [c o lc tr], S as [vc pf pv sl]; cbn; intros ->.
  unfold shown, later; cbn [viewColumn preserveFocus preview selection].
  rewrite app_nil_r.
  destruct vc as [x|], ln as [n|]; crunch;
    repeat match goal with
           | H : bool_decide _ = true |- _ => apply bool_decide_eq_true in H
           | H : bool_decide _ = false |- _ => apply bool_decide_eq_false in H
           | H : negb _ = true |- _ => apply negb_true_iff in H
           | H : negb _ = false |- _ => apply negb_false_iff in H
           end; first [done | congruence].
Qed.

Lemma later_later σ L R S repo ln v es L' R' S' repo' ln' v' es' :
  later (later σ L R S repo ln v es) L' R' S' repo' ln' v' es'
  = later σ L' R' S' repo' ln' v' (es ++ es').
Proof. unfold later; cbn. by rewrite (assoc_L (++)). Qed.

Lemma later_refl σ L R S repo ln :
  own σ = drafts L R S repo ln → σ = later σ L R S repo ln (locals σ) [].
Proof. destruct σ; cbn; intros ->. unfold later; cbn. by rewrite app_nil_r. Qed.

(** Lines 113-126 by their verdict. *)
Lemma classification_verdict σ L R S repo ln rp rhsSha x u d :
  own σ = drafts L R S repo ln →
  sha R = Some x → uri R = Some u →
  verdict G rp u x = Ok d →
  classification G (Own 1) rp rhsSha σ =
    (Ok (rhsShaAfter rhsSha x d),
     later σ L (mkRevision (Some (revisionAfter G x d)) (uri R) (title R))
           S repo ln (locals σ) (statusEvents G rp u x)).
Proof.
  intros Hσ Hs Hu. unfold verdict, statusEvents.
  destruct (concrete G x) eqn:Hx.
  - destruct (getFileStatusForCommit G rp (fsPath u) (Some x)) as [found|e] eqn:Hf; [|done].
    intros [= <-].
    rewrite (classification_answered σ L R S repo ln rp rhsSha x u found Hσ Hs Hx Hu Hf).
    cbn. by destruct (deleted found).
  - intros [= <-]. rewrite (classification_skipped σ L R S repo ln rp rhsSha x Hσ Hs Hx).
    cbn. f_equal. rewrite <- Hs. destruct R; cbn. by apply later_refl.
Qed.

Lemma classification_verdict_failed σ L R S repo ln rp rhsSha x u e :
  own σ = drafts L R S repo ln →
  sha R = Some x → uri R = Some u →
  verdict G rp u x = Thrown e →
  concrete G x = true ∧
  classification G (Own 1) rp rhsSha σ =
    (Thrown e,
     later σ L R S repo ln (locals σ)
           [Invoked (GetFileStatusForCommit rp (fsPath u) (Some x));
            Settled (GetFileStatusForCommit rp (fsPath u) (Some x))]).
Proof.
  intros Hσ Hs Hu. unfold verdict.
  destruct (concrete G x) eqn:Hx; [|done].
  destruct (getFileStatusForCommit G rp (fsPath u) (Some x)) as [found|e'] eqn:Hf; [done|].
  intros [= <-]. split; [done|].
  by rewrite (classification_failed σ L R S repo ln rp rhsSha x u e' Hσ Hs Hx Hu Hf).
Qed.

(** Line 150 reads the length of a revision that line 104 assigned: it
    does not throw. *)
Lemma leftSuffix_defined lhsSha c1 s lhs rhs rhsSuffix :
  ∃ p, leftSuffix G lhsSha c1 (Some s) lhs rhs rhsSuffix = Ok p.
Proof. unfold leftSuffix. destruct lhs, rhs, (String.length s =? 0); by eexists. Qed.

Lemma settlements_ofRank b rp f1 s1 f2 s2 (r1 r2 : outcome (option Uri)) :
  ofRank 2 2 ([Invoked (GetVersionedUri rp f1 s1); Invoked (GetVersionedUri rp f2 s2)]
              ++ settlements b (GetVersionedUri rp f1 s1) r1 (GetVersionedUri rp f2 s2) r2).
Proof.
  unfold settlements.
  destruct b, r1, r2; (split; [by repeat constructor | cbn; lia]).
Qed.

Lemma joined_answered {A B} b (x : A) (y : B) : joined b (Ok x) (Ok y) = Ok (x, y).
Proof. by destruct b. Qed.

Lemma joined_rejected {A B} b (r1 : outcome A) (r2 : outcome B) :
  (∀ x y, ¬ (r1 = Ok x ∧ r2 = Ok y)) → ∃ e, joined b r1 r2 = Thrown e.
Proof.
  intros H. destruct b, r1 as [x|e1], r2 as [y|e2]; cbn; eauto;
    by destruct (H x y).
Qed.

(** Lines 128-194 when both sides have a location and both content
    requests are answered. *)
Lemma presentation_run σ L R S repo ln rp lhsSha rhsSha uL uR c2 lhs rhs :
  own σ = drafts L R S repo ln →
  uri L = Some uL → uri R = Some uR → sha R = Some c2 →
  getVersionedUri G rp (fsPath uL) (sha L) = Ok lhs →
  getVersionedUri G rp (fsPath uR) (sha R) = Ok rhs →
  ∃ v,
    v_lhsSha v = lhsSha ∧ v_rhsSha v = rhsSha ∧ v_lhs v = lhs ∧ v_rhs v = rhs ∧
    derived G v (sha L) (sha R) ∧
    let t1 := leftLabel G (title L) uL lhs (v_lhsSuffix v) in
    let t2 := rightLabel G (title R) uR (v_rhsSuffix v) in
    let left := handed G rp uL lhs in
    let right := handed G rp uR rhs in
    let d := ExecuteDiff left right (v_title v) (shown S ln) in
    let g1 := GetVersionedUri rp (fsPath uL) (sha L) in
    let g2 := GetVersionedUri rp (fsPath uR) (sha R) in
    v_title v = combinedTitle G t1 t2 ∧
    presentation G (Own 3) (Own 0) (Own 1) rp lhsSha rhsSha σ =
      (executeDiff G left right (v_title v) (shown S ln),
       later σ (mkRevision (sha L) (uri L) t1) (mkRevision (sha R) (uri R) t2)
             (shown S ln) repo ln (Some v)
             ([Invoked g1; Invoked g2]
              ++ settlements (secondSettlesFirst G)
                   g1 (Ok lhs : outcome (option Uri)) g2 (Ok rhs : outcome (option Uri))
              ++ [Invoked d; Settled d])).
Proof.
  intros Hσ HuL HuR Hc2 Hl Hr. unfold presentation, mbind, M_bind.
  rewrite (acquisition_run σ L R S repo ln rp uL uR Hσ HuL HuR), Hl, Hr, joined_answered.
  cbv [get_sha revisionAt load mbind M_bind mret M_ret answer later drafts
       own caller locals trace fst snd];
    cbn [lookup list_lookup sha].
  rewrite Hc2.
  destruct (leftSuffix_defined lhsSha (sha L) c2 lhs rhs
              (rightSuffix G rhsSha (Some c2) lhs rhs)) as [[lhsSuffix rhsSuffix] El].
  rewrite El.
  match goal with |- context [titles G _ _ _ _ _ ?s] =>
    rewrite (titles_run G s L R S repo ln uL uR lhs lhsSuffix rhsSuffix eq_refl HuL HuR)
  end.
  cbv [observe later drafts own caller locals trace]. cbn [app].
  match goal with |- context [displayOptions _ ?s] =>
    rewrite (displayOptions_exact s _ _ S repo ln eq_refl)
  end.
  match goal with |- context [delegation G _ _ _ _ _ _ _ ?s] =>
    rewrite (delegation_run G s _ _ (shown S ln) repo ln rp uL uR lhs rhs _ eq_refl HuL HuR)
  end.
  exists (mkLocals lhsSha rhsSha lhs rhs (rightSuffix G rhsSha (Some c2) lhs rhs)
            lhsSuffix rhsSuffix
            (combinedTitle G (leftLabel G (title L) uL lhs lhsSuffix)
               (rightLabel G (title R) uR rhsSuffix))).
  cbn [v_lhsSha v_rhsSha v_lhs v_rhs v_title v_lhsSuffix v_rhsSuffix].
  split_and!; try done.
  destruct σ; unfold later, drafts; cbn [caller own locals trace].
  rewrite ?Hc2, !app_nil_r, <- !(assoc_L (++)). by cbn [app].
Qed.

(** Lines 128-194: either the content requests are not both answered, and
    the block ends there, or they are. *)
Lemma presentation_cases σ L R S repo ln rp lhsSha rhsSha :
  own σ = drafts L R S repo ln →
  (∃ e es,
     presentation G (Own 3) (Own 0) (Own 1) rp lhsSha rhsSha σ =
       (Thrown e, later σ L R S repo ln (locals σ) es) ∧ ofRank 2 2 es)
  ∨ (∃ uL uR lhs rhs,
       uri L = Some uL ∧ uri R = Some uR ∧
       getVersionedUri G rp (fsPath uL) (sha L) = Ok lhs ∧
       getVersionedUri G rp (fsPath uR) (sha R) = Ok rhs).
Proof.
  intros Hσ. unfold presentation, mbind, M_bind.
  destruct (uri L) as [uL|] eqn:HuL, (uri R) as [uR|] eqn:HuR.
  2-4: left;
    destruct (acquisition_unlocated σ L R S repo ln rp Hσ) as (e & es & -> & HF & Hn);
      [rewrite ?HuL, ?HuR; eauto|];
    exists e, es; split; [done|]; split; [done|lia].
  destruct (getVersionedUri G rp (fsPath uL) (sha L)) as [lhs|e1] eqn:Hl.
  - destruct (getVersionedUri G rp (fsPath uR) (sha R)) as [rhs|e2] eqn:Hr.
    { right. by exists uL, uR, lhs, rhs. }
    left. rewrite (acquisition_run σ L R S repo ln rp uL uR Hσ HuL HuR), Hl, Hr.
    destruct (joined_rejected (secondSettlesFirst G)
                (Ok lhs : outcome (option Uri)) (Thrown e2 : outcome (option Uri)))
      as [e ->]; [by intros x y [_ ?]|].
    eexists e, _. split; [reflexivity|]. apply settlements_ofRank.
  - left. rewrite (acquisition_run σ L R S repo ln rp uL uR Hσ HuL HuR), Hl.
    destruct (joined_rejected (secondSettlesFirst G)
                (Thrown e1 : outcome (option Uri))
                (getVersionedUri G rp (fsPath uR) (sha R)))
      as [e ->]; [by intros x y [? _]|].
    eexists e, _. split; [reflexivity|]. apply settlements_ofRank.
Qed.

(** Lines 101-194 when both sides have a location and every lookup is
    answered: the block ends with the call to the viewer. *)
Lemma body_run σ L R S repo ln rp uL uR x1 x2 d lhs rhs :
  own σ = drafts L R S repo ln →
  uri L = Some uL → uri R = Some uR →
  resolveReference G rp (sha L) (uri L) = Ok x1 →
  resolveReference G rp (sha R) (uri R) = Ok x2 →
  verdict G rp uR x2 = Ok d →
  getVersionedUri G rp (fsPath uL) (Some x1) = Ok lhs →
  getVersionedUri G rp (fsPath uR) (Some (revisionAfter G x2 d)) = Ok rhs →
  ∃ v,
    v_lhsSha v = lhsShaAfter G (sha L) x1 ∧
    v_rhsSha v = rhsShaAfter (sha R) x2 d ∧
    v_lhs v = lhs ∧ v_rhs v = rhs ∧
    derived G v (Some x1) (Some (revisionAfter G x2 d)) ∧
    let t1 := leftLabel G (title L) uL lhs (v_lhsSuffix v) in
    let t2 := rightLabel G (title R) uR (v_rhsSuffix v) in
    let left := handed G rp uL lhs in
    let right := handed G rp uR rhs in
    let call := ExecuteDiff left right (v_title v) (shown S ln) in
    v_title v = combinedTitle G t1 t2 ∧
    body G (Own 3) (Own 0) (Own 1) rp σ =
      (executeDiff G left right (v_title v) (shown S ln),
       later σ (mkRevision (Some x1) (uri L) t1)
               (mkRevision (Some (revisionAfter G x2 d)) (uri R) t2)
               (shown S ln) repo ln (Some v)
               (pipeline G rp L R uL uR x1 x2 d lhs rhs call)).
Proof.
  intros Hσ HuL HuR H1 H2 Hv Hl Hr. unfold body, mbind, M_bind.
  rewrite (resolution_run G σ L R S repo ln rp x1 x2 Hσ H1 H2).
  match goal with |- context [classification G _ _ ?r ?s] =>
    rewrite (classification_verdict s (mkRevision (Some x1) (uri L) (title L))
               (mkRevision (Some x2) (uri R) (title R))
               S repo ln rp r x2 uR d eq_refl eq_refl HuR Hv)
  end.
  cbn [sha uri title locals later]. rewrite later_later.
  match goal with |- context [presentation G _ _ _ _ ?x ?y ?s] =>
    destruct (presentation_run s (mkRevision (Some x1) (uri L) (title L))
                (mkRevision (Some (revisionAfter G x2 d)) (uri R) (title R))
                S repo ln rp x y uL uR (revisionAfter G x2 d) lhs rhs
                eq_refl HuL HuR eq_refl Hl Hr)
      as (v & HvL & HvR & Hvl & Hvr & Hd & Ht & ->)
  end.
  exists v. cbn [sha uri title] in *. subst lhs rhs.
  split_and!; try done.
  - rewrite HvL. unfold lhsShaAfter. cbn [equals]. by destruct (String.eqb x1 _).
  - rewrite later_later. unfold pipeline. by rewrite <- !(assoc_L (++)).
Qed.

(** Lines 101-194: either a lookup is rejected or a side has no
    location, and the block ends before the labels exist, or every lookup
    is answered. *)
Lemma body_cases σ L R S repo ln rp :
  own σ = drafts L R S repo ln →
  (∃ e L' R' es0 es1 es2,
     body G (Own 3) (Own 0) (Own 1) rp σ =
       (Thrown e, later σ L' R' S repo ln (locals σ) (es0 ++ es1 ++ es2)) ∧
     lookups G rp L R es0 ∧ statusLookup G rp R es1 ∧ ofRank 2 2 es2)
  ∨ (∃ uL uR x1 x2 d lhs rhs,
       uri L = Some uL ∧ uri R = Some uR ∧
       resolveReference G rp (sha L) (uri L) = Ok x1 ∧
       resolveReference G rp (sha R) (uri R) = Ok x2 ∧
       verdict G rp uR x2 = Ok d ∧
       getVersionedUri G rp (fsPath uL) (Some x1) = Ok lhs ∧
       getVersionedUri G rp (fsPath uR) (Some (revisionAfter G x2 d)) = Ok rhs).
Proof.
  intros Hσ.
  assert (Hnone : ofRank 2 2 []) by (split; [constructor | cbn; lia]).
  destruct (resolveReference G rp (sha L) (uri L)) as [x1|e] eqn:H1.
  2: { left. eexists e, L, R, [_; _], [], []. split_and!; try done.
       - unfold body, mbind, M_bind.
         by rewrite (resolution_rejected G σ L R S repo ln rp e Hσ H1).
       - unfold lookups. by rewrite H1.
       - by left. }
  destruct (resolveReference G rp (sha R) (uri R)) as [x2|e] eqn:H2.
  2: { left. eexists e, L, R, [_; _; _; _], [], []. split_and!; try done.
       - unfold body, mbind, M_bind.
         by rewrite (resolution_rejected_right σ L R S repo ln rp x1 e Hσ H1 H2).
       - unfold lookups. by rewrite H1.
       - by left. }
  unfold body, mbind, M_bind.
  rewrite (resolution_run G σ L R S repo ln rp x1 x2 Hσ H1 H2).
  set (L1 := mkRevision (Some x1) (uri L) (title L)).
  set (R1 := mkRevision (Some x2) (uri R) (title R)).
  set (c1 := ResolveReference rp (sha L) (uri L)).
  set (c2 := ResolveReference rp (sha R) (uri R)).
  set (es0 := [Invoked c1; Settled c1; Invoked c2; Settled c2]).
  assert (Hes0 : lookups G rp L R es0) by (unfold lookups; by rewrite H1).
  destruct (uri R) as [uR|] eqn:HuR.
  - destruct (verdict G rp uR x2) as [d|e] eqn:Hv.
    + match goal with |- context [classification G _ _ ?r ?s] =>
        rewrite (classification_verdict s L1 R1 S repo ln rp r x2 uR d
                   eq_refl eq_refl eq_refl Hv)
      end.
      cbn [sha uri title locals later]. rewrite later_later.
      set (R2 := mkRevision (Some (revisionAfter G x2 d)) (Some uR) (title R)).
      assert (Hes1 : statusLookup G rp R (statusEvents G rp uR x2)).
      { unfold statusLookup, statusEvents.
        destruct (concrete G x2) eqn:Hx; [right|by left].
        exists uR, x2. by rewrite HuR. }
      match goal with |- context [presentation G _ _ _ _ ?x ?y ?s] =>
        destruct (presentation_cases s L1 R2 S repo ln rp x y eq_refl)
          as [(e & es2 & -> & Hes2)|(uL & uR' & lhs & rhs & HuL & [= <-] & Hl & Hr)]
      end.
      * left. exists e, L1, R2, es0, (statusEvents G rp uR x2), es2.
        split_and!; try done.
        rewrite later_later. by rewrite <- !(assoc_L (++)).
      * right. by exists uL, uR, x1, x2, d, lhs, rhs.
    + destruct (classification_verdict_failed
                  (later σ L1 R1 S repo ln (locals σ) es0) L1 R1 S repo ln rp
                  (sha R) x2 uR e eq_refl eq_refl eq_refl Hv) as [Hx Hc].
      rewrite Hc. left. eexists e, L1, R1, es0, [_; _], [].
      split_and!; try done.
      * rewrite later_later. by rewrite app_nil_r.
      * right. exists uR, x2. by rewrite HuR.
  - destruct (concrete G x2) eqn:Hx.
    + destruct (classification_unlocated
                  (later σ L1 R1 S repo ln (locals σ) es0) L1 R1 S repo ln rp
                  (sha R) x2 eq_refl eq_refl Hx eq_refl) as [e ->].
      left. exists e, L1, R1, es0, [], [].
      split_and!; try done; try (by left); by rewrite !app_nil_r.
    + rewrite (classification_skipped
                 (later σ L1 R1 S repo ln (locals σ) es0) L1 R1 S repo ln rp
                 (sha R) x2 eq_refl eq_refl Hx).
      match goal with |- context [presentation G _ _ _ _ ?x ?y ?s] =>
        destruct (presentation_cases s L1 R1 S repo ln rp x y eq_refl)
          as [(e & es2 & -> & Hes2)|(uL & uR' & lhs & rhs & HuL & [=] & _)]
      end.
      left. exists e, L1, R1, es0, [], es2.
      split_and!; try done; try (by left); rewrite later_later; by cbn [app].
Qed.

(** Lines 91-200 on a request that names a repository, by the same
    alternative. *)
Lemma execute_run h a rp uL uR x1 x2 d lhs rhs :
  repoPath (request h (Some a)) = Some rp →
  let L := leftOf h (Some a) in
  let R := rightOf h (Some a) in
  let S := optionsOf h (Some a) in
  let repo := repoPath (request h (Some a)) in
  let ln := line (request h (Some a)) in
  uri L = Some uL → uri R = Some uR →
  resolveReference G rp (sha L) (uri L) = Ok x1 →
  resolveReference G rp (sha R) (uri R) = Ok x2 →
  verdict G rp uR x2 = Ok d →
  getVersionedUri G rp (fsPath uL) (Some x1) = Ok lhs →
  getVersionedUri G rp (fsPath uR) (Some (revisionAfter G x2 d)) = Ok rhs →
  ∃ v,
    v_lhsSha v = lhsShaAfter G (sha L) x1 ∧
    v_rhsSha v = rhsShaAfter (sha R) x2 d ∧
    v_lhs v = lhs ∧ v_rhs v = rhs ∧
    derived G v (Some x1) (Some (revisionAfter G x2 d)) ∧
    let t1 := leftLabel G (title L) uL lhs (v_lhsSuffix v) in
    let t2 := rightLabel G (title R) uR (v_rhsSuffix v) in
    let left := handed G rp uL lhs in
    let right := handed G rp uR rhs in
    let call := ExecuteDiff left right (v_title v) (shown S ln) in
    let out := executeDiff G left right (v_title v) (shown S ln) in
    v_title v = combinedTitle G t1 t2 ∧
    execute G (Some a) (enter h) =
      (caught G out,
       mkState h
         (drafts (mkRevision (Some x1) (uri L) t1)
                 (mkRevision (Some (revisionAfter G x2 d)) (uri R) t2)
                 (shown S ln) repo ln)
         (Some v)
         (pipeline G rp L R uL uR x1 x2 d lhs rhs call ++ caught_events out)).
Proof.
  intros Hrepo L R S repo ln HuL HuR H1 H2 Hv Hl Hr.
  rewrite execute_copied, Hrepo.
  destruct (body_run (copied h a) L R S repo ln rp uL uR x1 x2 d lhs rhs
              eq_refl HuL HuR H1 H2 Hv Hl Hr)
    as (v & ? & ? & ? & ? & ? & ? & Hb).
  exists v. split_and!; try done.
  by rewrite (try_catch_run G _ _ _ _ Hb).
Qed.

Lemma execute_cases h a rp :
  repoPath (request h (Some a)) = Some rp →
  let L := leftOf h (Some a) in
  let R := rightOf h (Some a) in
  let S := optionsOf h (Some a) in
  let repo := repoPath (request h (Some a)) in
  let ln := line (request h (Some a)) in
  (∃ e L' R' es0 es1 es2,
     execute G (Some a) (enter h) =
       (showGenericErrorMessage G "Unable to open compare",
        mkState h (drafts L' R' S repo ln) None
                (es0 ++ es1 ++ es2 ++ reported e)) ∧
     lookups G rp L R es0 ∧ statusLookup G rp R es1 ∧ ofRank 2 2 es2)
  ∨ (∃ uL uR x1 x2 d lhs rhs,
       uri L = Some uL ∧ uri R = Some uR ∧
       resolveReference G rp (sha L) (uri L) = Ok x1 ∧
       resolveReference G rp (sha R) (uri R) = Ok x2 ∧
       verdict G rp uR x2 = Ok d ∧
       getVersionedUri G rp (fsPath uL) (Some x1) = Ok lhs ∧
       getVersionedUri G rp (fsPath uR) (Some (revisionAfter G x2 d)) = Ok rhs).
Proof.
  intros Hrepo L R S repo ln.
  destruct (body_cases (copied h a) L R S repo ln rp eq_refl)
    as [(e & L' & R' & es0 & es1 & es2 & Hb & ? & ? & ?)|Hrun]; [left|by right].
  exists e, L', R', es0, es1, es2. split_and!; try done.
  rewrite execute_copied, Hrepo, (try_catch_run G _ _ _ _ Hb).
  unfold record, later, copied; cbn. by rewrite <- !(assoc_L (++)).
Qed.

End Cases.

(** *** Counting and ordering calls *)

Lemma invocations_app es1 es2 :
  invocations (es1 ++ es2) = invocations es1 ++ invocations es2.
Proof.
  induction es1 as [|[c|c] es1 IH]; cbn; [done| |done]. by rewrite IH.
Qed.

Lemma count_app k es1 es2 : count k (es1 ++ es2) = count k es1 + count k es2.
Proof. unfold count. by rewrite invocations_app, filter_app, length_app. Qed.

Lemma ofRank_ranks k n es : ofRank k n es → Forall (eq k) (rank <$> invocations es).
Proof.
  intros [HF _]. induction HF as [|[c|c] es Hc HF IH]; cbn; [constructor| |done].
  constructor; [by cbn in Hc|done].
Qed.

Lemma count_ranks k es : count k es = length (filter (eq k) (rank <$> invocations es)).
Proof.
  unfold count. induction (invocations es) as [|c cs IH]; [done|].
  rewrite fmap_cons, !filter_cons.
  destruct (decide (rank c = k)), (decide (k = rank c)); cbn; congruence.
Qed.

Lemma ofRank_count k n es : ofRank k n es → count k es ≤ n.
Proof.
  intros [_ Hn]. unfold count.
  etrans; [apply length_filter|done].
Qed.

Lemma ofRank_other k n j es : ofRank k n es → j ≠ k → count j es = 0.
Proof.
  intros H%ofRank_ranks Hj. rewrite count_ranks.
  induction H as [|x ks <- HF IH]; [done|].
  rewrite filter_cons. by destruct (decide (j = k)).
Qed.

Lemma ascending_block k ks rest :
  Forall (eq k) ks → Forall (le k) rest → ascending rest = true →
  ascending (ks ++ rest) = true.
Proof.
  intros Hks Hrest Hasc. induction Hks as [|x ks <- Hks IH]; [done|].
  cbn [app]. cbn [app] in IH.
  destruct (ks ++ rest) as [|k2 tl] eqn:E; [done|].
  change (((k <=? k2) && ascending (k2 :: tl)) = true).
  rewrite IH, andb_true_r. apply Nat.leb_le.
  destruct Hks as [|y ks' <- _].
  - cbn in E. subst rest. by inversion Hrest.
  - by injection E as <- _.
Qed.

Lemma lookups_ofRank G rp L R es : lookups G rp L R es → ofRank 0 2 es.
Proof.
  unfold lookups. destruct (resolveReference _ _ _ _); intros ->;
    (split; [by repeat constructor | cbn; lia]).
Qed.

Lemma statusLookup_ofRank G rp R es : statusLookup G rp R es → ofRank 1 1 es.
Proof.
  intros [-> | (u & x & _ & _ & _ & ->)]; (split; [by repeat constructor | cbn; lia]).
Qed.

Lemma statusEvents_ofRank G rp u x : ofRank 1 1 (statusEvents G rp u x).
Proof.
  unfold statusEvents.
  destruct (concrete G x); (split; [by repeat constructor | cbn; lia]).
Qed.

(** The events of a run, stage by stage. *)
Lemma execute_staged G h a :
  ∃ e0 e1 e2 e3 e4 e5,
    trace (final G h a) = e0 ++ e1 ++ e2 ++ e3 ++ e4 ++ e5 ∧
    ofRank 0 2 e0 ∧ ofRank 1 1 e1 ∧ ofRank 2 2 e2 ∧
    ofRank 3 1 e3 ∧ ofRank 4 1 e4 ∧ ofRank 5 1 e5 ∧
    length (invocations e4) = length (invocations e5).
Proof.
  assert (Hnil : ∀ k n, ofRank k n []) by (split; [constructor | cbn; lia]).
  assert (Hquiet : ∃ e0 e1 e2 e3 e4 e5 : list event,
    [] = e0 ++ e1 ++ e2 ++ e3 ++ e4 ++ e5 ∧
    ofRank 0 2 e0 ∧ ofRank 1 1 e1 ∧ ofRank 2 2 e2 ∧
    ofRank 3 1 e3 ∧ ofRank 4 1 e4 ∧ ofRank 5 1 e5 ∧
    length (invocations e4) = length (invocations e5)).
  { exists [], [], [], [], [], []. by split_and!. }
  unfold final. destruct a as [a|]; [|by rewrite execute_undefined].
  destruct (repoPath (request h (Some a))) as [rp|] eqn:Hrepo.
  2: { by rewrite execute_copied, Hrepo. }
  destruct (execute_cases G h a rp Hrepo)
    as [(e & L' & R' & es0 & es1 & es2 & -> & H0 & H1 & H2)
       |(uL & uR & x1 & x2 & d & lhs & rhs & HuL & HuR & H1 & H2 & Hv & Hl & Hr)].
  - exists es0, es1, es2, [], [Invoked (LoggerError e "DiffWithCommand" "getVersionedFile")],
      [Invoked (ShowGenericErrorMessage "Unable to open compare")].
    cbn [snd trace].
    split_and!; try done.
    + by eapply lookups_ofRank.
    + by eapply statusLookup_ofRank.
    + split; [by repeat constructor | cbn; lia].
    + split; [by repeat constructor | cbn; lia].
  - destruct (execute_run G h a rp uL uR x1 x2 d lhs rhs Hrepo HuL HuR H1 H2 Hv Hl Hr)
      as (v & _ & _ & _ & _ & _ & _ & ->).
    cbn [snd trace]. unfold pipeline.
    match goal with |- context [caught_events ?out] => destruct out as [x|e] end;
      cbn [caught_events reported].
    + eexists [_; _; _; _], (statusEvents G rp uR x2), (_ :: _ :: settlements _ _ _ _ _),
        [_; _], [], [].
      split_and!; try done.
      * by rewrite <- !(assoc_L (++)).
      * split; [by repeat constructor | cbn; lia].
      * apply statusEvents_ofRank.
      * apply settlements_ofRank.
      * split; [by repeat constructor | cbn; lia].
    + eexists [_; _; _; _], (statusEvents G rp uR x2), (_ :: _ :: settlements _ _ _ _ _),
        [_; _], [Invoked (LoggerError e "DiffWithCommand" "getVersionedFile")],
        [Invoked (ShowGenericErrorMessage "Unable to open compare")].
      split_and!; try done.
      * by rewrite <- !(assoc_L (++)).
      * split; [by repeat constructor | cbn; lia].
      * apply statusEvents_ofRank.
      * apply settlements_ofRank.
      * split; [by repeat constructor | cbn; lia].
      * split; [by repeat constructor | cbn; lia].
      * split; [by repeat constructor | cbn; lia].
Qed.

Lemma ofRank_elem k n es ev : ofRank k n es → ev ∈ es → rank (called ev) = k.
Proof. intros [HF _] Hin. by eapply Forall_forall in HF. Qed.

Lemma ofRank_exact k n es : ofRank k n es → count k es = length (invocations es).
Proof.
  intros H%ofRank_ranks. rewrite count_ranks, <- (length_fmap rank).
  induction H as [|x ks <- HF IH]; [done|].
  rewrite filter_cons. destruct (decide (k = k)); [|done]. cbn. by rewrite IH.
Qed.

Lemma concrete_spec G x :
  concrete G x = true ↔ x ≠ "" ∧ x ≠ deletedOrMissingSha G.
Proof.
  unfold concrete. rewrite andb_true_iff, !negb_true_iff, !String.eqb_neq. done.
Qed.

(** *** Reading a run backwards *)

Lemma pipeline_viewer G rp L R uL uR x1 x2 d lhs rhs call out l r t o :
  Invoked (ExecuteDiff l r t o)
    ∈ pipeline G rp L R uL uR x1 x2 d lhs rhs call ++ caught_events out →
  call = ExecuteDiff l r t o.
Proof.
  unfold pipeline. rewrite !elem_of_app. intros [[H|[H|[H|[H|H]]]]|H].
  - absent H.
  - by apply (ofRank_elem _ _ _ _ (statusEvents_ofRank G rp uR x2)) in H.
  - absent H.
  - unfold settlements in H. destruct (secondSettlesFirst G); absent H.
  - apply elem_of_cons in H as [H|H]; [congruence|]. absent H.
  - by apply caught_events_quiet in H.
Qed.

Lemma pipeline_status G rp L R uL uR x1 x2 d lhs rhs l r t o out repo file ref :
  Invoked (GetFileStatusForCommit repo file ref)
    ∈ pipeline G rp L R uL uR x1 x2 d lhs rhs (ExecuteDiff l r t o)
      ++ caught_events out →
  concrete G x2 = true ∧ repo = rp ∧ file = fsPath uR ∧ ref = Some x2.
Proof.
  unfold pipeline. rewrite !elem_of_app. intros [[H|[H|[H|[H|H]]]]|H].
  - absent H.
  - unfold statusEvents in H. destruct (concrete G x2); [|absent H].
    apply elem_of_cons in H as [[= -> -> ->]|H]; [done|]. absent H.
  - absent H.
  - unfold settlements in H. destruct (secondSettlesFirst G); absent H.
  - absent H.
  - destruct out; cbn in H; absent H.
Qed.

(** The local variables exist at the end of a run only when every lookup
    was answered, and then they, the objects and the events are the ones
    of [execute_run]. *)
Lemma execute_assembled G h a v :
  locals (final G h a) = Some v →
  ∃ a' rp uL uR x1 x2 d,
    a = Some a' ∧
    repoPath (request h a) = Some rp ∧
    uri (leftOf h a) = Some uL ∧ uri (rightOf h a) = Some uR ∧
    resolveReference G rp (sha (leftOf h a)) (uri (leftOf h a)) = Ok x1 ∧
    resolveReference G rp (sha (rightOf h a)) (uri (rightOf h a)) = Ok x2 ∧
    verdict G rp uR x2 = Ok d ∧
    getVersionedUri G rp (fsPath uL) (Some x1) = Ok (v_lhs v) ∧
    getVersionedUri G rp (fsPath uR) (Some (revisionAfter G x2 d)) = Ok (v_rhs v) ∧
    v_lhsSha v = lhsShaAfter G (sha (leftOf h a)) x1 ∧
    v_rhsSha v = rhsShaAfter (sha (rightOf h a)) x2 d ∧
    derived G v (Some x1) (Some (revisionAfter G x2 d)) ∧
    let t1 := leftLabel G (title (leftOf h a)) uL (v_lhs v) (v_lhsSuffix v) in
    let t2 := rightLabel G (title (rightOf h a)) uR (v_rhsSuffix v) in
    let left := handed G rp uL (v_lhs v) in
    let right := handed G rp uR (v_rhs v) in
    let S' := shown (optionsOf h a) (line (request h a)) in
    let call := ExecuteDiff left right (v_title v) S' in
    let out := executeDiff G left right (v_title v) S' in
    v_title v = combinedTitle G t1 t2 ∧
    execute G a (enter h) =
      (caught G out,
       mkState h
         (drafts (mkRevision (Some x1) (uri (leftOf h a)) t1)
                 (mkRevision (Some (revisionAfter G x2 d)) (uri (rightOf h a)) t2)
                 S' (repoPath (request h a)) (line (request h a)))
         (Some v)
         (pipeline G rp (leftOf h a) (rightOf h a) uL uR x1 x2 d (v_lhs v) (v_rhs v) call
          ++ caught_events out)).
Proof.
  unfold final. destruct a as [a|]; [|by rewrite execute_undefined].
  destruct (repoPath (request h (Some a))) as [rp|] eqn:Hrepo.
  2: { by rewrite execute_copied, Hrepo. }
  destruct (execute_cases G h a rp Hrepo)
    as [(e & L' & R' & es0 & es1 & es2 & -> & _)
       |(uL & uR & x1 & x2 & d & lhs & rhs & HuL & HuR & H1 & H2 & Hv & Hl & Hr)];
    [done|].
  destruct (execute_run G h a rp uL uR x1 x2 d lhs rhs Hrepo HuL HuR H1 H2 Hv Hl Hr)
    as (v' & ? & ? & <- & <- & ? & ? & Hex).
  rewrite Hex. cbn [snd locals]. intros [= ->].
  exists a, rp, uL, uR, x1, x2, d. rewrite Hrepo in *. by split_and!.
Qed.

(** The viewer is called only at the end of such a run. *)
Lemma viewer_called G h a l r t o :
  Invoked (ExecuteDiff l r t o) ∈ trace (final G h a) →
  ∃ rp uL uR v,
    repoPath (request h a) = Some rp ∧
    uri (leftOf h a) = Some uL ∧ uri (rightOf h a) = Some uR ∧
    locals (final G h a) = Some v ∧
    l = handed G rp uL (v_lhs v) ∧ r = handed G rp uR (v_rhs v) ∧
    t = v_title v ∧ o = shown (optionsOf h a) (line (request h a)).
Proof.
  destruct (locals (final G h a)) as [v|] eqn:Hv.
  - destruct (execute_assembled G h a v Hv)
      as (a' & rp & uL & uR & x1 & x2 & d & -> & Hrepo & HuL & HuR & _ & _ & _ & _ & _
          & _ & _ & _ & _ & Hex).
    unfold final. rewrite Hex. cbn [snd trace].
    intros [= <- <- <- <-]%pipeline_viewer. by exists rp, uL, uR, v.
  - revert Hv. unfold final. destruct a as [a|].
    2: { rewrite execute_undefined. cbn. by intros _ ?%elem_of_nil. }
    destruct (repoPath (request h (Some a))) as [rp|] eqn:Hrepo.
    2: { rewrite execute_copied, Hrepo. cbn. by intros _ ?%elem_of_nil. }
    destruct (execute_cases G h a rp Hrepo)
      as [(e & L' & R' & es0 & es1 & es2 & -> & H0 & H1 & H2)
         |(uL & uR & x1 & x2 & d & lhs & rhs & HuL & HuR & H1 & H2 & Hv & Hl & Hr)].
    + cbn [snd trace]. intros _. rewrite !elem_of_app. intros [H|[H|[H|H]]].
      * by apply (ofRank_elem _ _ _ _ (lookups_ofRank _ _ _ _ _ H0)) in H.
      * by apply (ofRank_elem _ _ _ _ (statusLookup_ofRank _ _ _ _ H1)) in H.
      * by apply (ofRank_elem _ _ _ _ H2) in H.
      * by apply reported_quiet in H.
    + destruct (execute_run G h a rp uL uR x1 x2 d lhs rhs Hrepo HuL HuR H1 H2 Hv Hl Hr)
        as (v' & _ & _ & _ & _ & _ & _ & ->). done.
Qed.

(** *** Requests written as literals *)

(** What [execute] finds when it is called with the objects of a request
    literal. *)
Lemma request_objects (r : Request.t) :
  let h := Request.objects r in
  let a := Some (Caller 0) in
  repoPath (request h a) = Request.repoPath r ∧
  line (request h a) = Request.line r ∧
  leftOf h a = default emptyRevision (Request.lhs r) ∧
  rightOf h a = default emptyRevision (Request.rhs r) ∧
  optionsOf h a = default emptyShowOptions (Request.showOptions r).
Proof.
  destruct r as [rp [l|] [r|] ln [o|]]; cbv zeta; split_and!; reflexivity.
Qed.

Lemma ofRank_counts k i n es :
  ofRank i n es → count k es = if k =? i then length (invocations es) else 0.
Proof.
  intros H. destruct (Nat.eqb_spec k i) as [->|Hne].
  - by eapply ofRank_exact.
  - by eapply ofRank_other.
Qed.

(** ** Further properties of [execute] *)

(** X1.  Whenever the viewer is called, the display options it is given
    are those of the request with lines 172-182 applied: the view column
    of the request, or the active column when it has none; its
    [preserveFocus] and [preview]; and as selection the start of the
    requested line when a line other than 0 is requested, the selection of
    the request otherwise. *)
Theorem X1_viewer_is_given_the_display_options G h a left right t o :
  Invoked (ExecuteDiff left right t o) ∈ trace (final G h a) →
  o = shown (optionsOf h a) (line (request h a)) ∧
  viewColumn o = Some (default Active (viewColumn (optionsOf h a))) ∧
  preserveFocus o = preserveFocus (optionsOf h a) ∧
  preview o = preview (optionsOf h a) ∧
  (∀ n, line (request h a) = Some n → n ≠ 0%N →
        selection o = Some (mkRange n 0 n 0)) ∧
  (line (request h a) = None ∨ line (request h a) = Some 0%N →
   selection o = selection (optionsOf h a)).
Proof.
  intros (rp & uL & uR & v & _ & _ & _ & _ & _ & _ & _ & ->)%viewer_called.
  unfold shown. cbn [viewColumn preserveFocus preview selection].
  split_and!; try done.
  - by destruct (viewColumn _).
  - intros n -> Hn. by destruct (N.eqb_spec n 0).
  - by intros [-> | ->].
Qed.

(** X2.  The test of line 98 only looks at the repository.  A request
    without repository makes the command return [undefined] without any
    call; every request that names one, with or without sides, gets as
    far as the lookup of the left revision. *)
Theorem X2_only_the_repository_is_required G h a :
  (repoPath (request h a) = None →
   (execute G a (enter h)).1 = Ok None ∧ trace (final G h a) = []) ∧
  (∀ rp, repoPath (request h a) = Some rp →
   let c := ResolveReference rp (sha (leftOf h a)) (uri (leftOf h a)) in
   ∃ rest, trace (final G h a) = Invoked c :: Settled c :: rest).
Proof.
  split.
  - intros H. by destruct (execute_no_repository G h a H) as (? & ? & _).
  - intros rp H. destruct a as [a|]; [by apply execute_looks_up|done].
Qed.

(** X3.  The calls of a run are made in the order of the pipeline:
    revision lookups, then the status lookup, then the content requests,
    then the viewer, then the log entry, then the error message.  No call
    of an earlier stage follows a call of a later one. *)
Theorem X3_calls_follow_the_pipeline G h a :
  ascending (rank <$> invocations (trace (final G h a))) = true.
Proof.
  destruct (execute_staged G h a)
    as (e0 & e1 & e2 & e3 & e4 & e5 & -> & H0 & H1 & H2 & H3 & H4 & H5 & _).
  apply ofRank_ranks in H0, H1, H2, H3, H4, H5.
  rewrite !invocations_app, !fmap_app.
  rewrite <- (app_nil_r (rank <$> invocations e5)).
  repeat (eapply ascending_block;
          [done
          |rewrite ?Forall_app; repeat split; try (by constructor);
           (eapply Forall_impl; [eassumption | cbn; intros ? <-; lia])
          |]).
  done.
Qed.

(** X4.  A run makes at most two revision lookups, one status lookup, two
    content requests and one call to the viewer; it writes at most one
    log entry, and it shows the error message exactly when it writes
    one. *)
Theorem X4_calls_are_bounded G h a :
  let tr := trace (final G h a) in
  count 0 tr ≤ 2 ∧ count 1 tr ≤ 1 ∧ count 2 tr ≤ 2 ∧ count 3 tr ≤ 1 ∧
  count 4 tr ≤ 1 ∧ count 5 tr = count 4 tr.
Proof.
  destruct (execute_staged G h a)
    as (e0 & e1 & e2 & e3 & e4 & e5 & -> & H0 & H1 & H2 & H3 & H4 & H5 & H45).
  cbv zeta. rewrite !count_app.
  rewrite !(ofRank_counts _ _ _ _ H0), !(ofRank_counts _ _ _ _ H1),
    !(ofRank_counts _ _ _ _ H2), !(ofRank_counts _ _ _ _ H3),
    !(ofRank_counts _ _ _ _ H4), !(ofRank_counts _ _ _ _ H5).
  cbn [Nat.eqb].
  destruct H0 as [_ ?], H1 as [_ ?], H2 as [_ ?], H3 as [_ ?], H4 as [_ ?].
  split_and!; lia.
Qed.

(** X5.  The status of a file is looked up only for the right side:
    every status lookup of a run is for the repository of the request, the
    path of the location of the right side, and the revision the right
    side resolved to, which is then neither empty nor the missing
    sentinel. *)
Theorem X5_status_is_looked_up_at_the_resolved_revision G h a repo file ref :
  Invoked (GetFileStatusForCommit repo file ref) ∈ trace (final G h a) →
  ∃ uR x,
    repoPath (request h a) = Some repo ∧
    uri (rightOf h a) = Some uR ∧ file = fsPath uR ∧
    resolveReference G repo (sha (rightOf h a)) (uri (rightOf h a)) = Ok x ∧
    ref = Some x ∧ x ≠ "" ∧ x ≠ deletedOrMissingSha G.
Proof.
  unfold final. destruct a as [a|].
  2: { rewrite execute_undefined. cbn. by intros ?%elem_of_nil. }
  destruct (repoPath (request h (Some a))) as [rp|] eqn:Hrepo.
  2: { rewrite execute_copied, Hrepo. cbn. by intros ?%elem_of_nil. }
  destruct (execute_cases G h a rp Hrepo)
    as [(e & L' & R' & es0 & es1 & es2 & -> & H0 & H1 & H2)
       |(uL & uR & x1 & x2 & d & lhs & rhs & HuL & HuR & H1 & H2 & Hv & Hl & Hr)].
  - cbn [snd trace]. rewrite !elem_of_app. intros [H|[H|[H|H]]].
    + by apply (ofRank_elem _ _ _ _ (lookups_ofRank _ _ _ _ _ H0)) in H.
    + destruct H1 as [-> | (u & x & Hu & Hx & Hc & ->)]; [by apply elem_of_nil in H|].
      apply elem_of_cons in H as [[= -> -> ->]|H]; [|absent H].
      apply concrete_spec in Hc as [? ?]. by exists u, x.
    + by apply (ofRank_elem _ _ _ _ H2) in H.
    + unfold reported in H. absent H.
  - destruct (execute_run G h a rp uL uR x1 x2 d lhs rhs Hrepo HuL HuR H1 H2 Hv Hl Hr)
      as (v & _ & _ & _ & _ & _ & _ & ->).
    cbn [snd trace]. intros (Hc & -> & -> & ->)%pipeline_status.
    apply concrete_spec in Hc as [? ?]. by exists uR, x2.
Qed.

(** X6.  When the labels are assembled, the two content references are
    what the repository answered for the path of each side at the
    revision that side holds when the command ends: the resolved revision,
    or the missing sentinel for a right side reported deleted. *)
Theorem X6_content_is_requested_for_the_final_revisions G h a v :
  locals (final G h a) = Some v →
  ∃ rp uL uR L' R',
    repoPath (request h a) = Some rp ∧
    uri (leftOf h a) = Some uL ∧ uri (rightOf h a) = Some uR ∧
    load (leftCopy a) (final G h a) = Some (ORevision L') ∧
    load (rightCopy a) (final G h a) = Some (ORevision R') ∧
    getVersionedUri G rp (fsPath uL) (sha L') = Ok (v_lhs v) ∧
    getVersionedUri G rp (fsPath uR) (sha R') = Ok (v_rhs v).
Proof.
  intros Hv.
  destruct (execute_assembled G h a v Hv)
    as (a' & rp & uL & uR & x1 & x2 & d & -> & Hrepo & HuL & HuR & _ & _ & _ & Hl & Hr
        & _ & _ & _ & _ & Hex).
  unfold final. rewrite Hex.
  by eexists rp, uL, uR, _, _.
Qed.

(** X7.  When the labels are assembled, both revisions were resolved, and
    the revisions are as lines 104-126 leave them.  The left side holds
    its resolved revision, and [lhsSha] is that revision unless it is the
    missing sentinel, in which case [lhsSha] is the revision of the
    request.  The right side holds its resolved revision unless the file
    is reported deleted at it, in which case it holds the sentinel; and
    [rhsSha] is the resolved revision only when the status was looked up
    and did not report a deletion, the revision of the request
    otherwise. *)
Theorem X7_revisions_after_the_lookups G h a v :
  locals (final G h a) = Some v →
  ∃ rp uR x1 x2 d L' R',
    repoPath (request h a) = Some rp ∧ uri (rightOf h a) = Some uR ∧
    resolveReference G rp (sha (leftOf h a)) (uri (leftOf h a)) = Ok x1 ∧
    resolveReference G rp (sha (rightOf h a)) (uri (rightOf h a)) = Ok x2 ∧
    verdict G rp uR x2 = Ok d ∧
    load (leftCopy a) (final G h a) = Some (ORevision L') ∧
    load (rightCopy a) (final G h a) = Some (ORevision R') ∧
    sha L' = Some x1 ∧
    sha R' = Some (revisionAfter G x2 d) ∧
    v_lhsSha v = lhsShaAfter G (sha (leftOf h a)) x1 ∧
    v_rhsSha v = rhsShaAfter (sha (rightOf h a)) x2 d.
Proof.
  intros Hv.
  destruct (execute_assembled G h a v Hv)
    as (a' & rp & uL & uR & x1 & x2 & d & -> & Hrepo & HuL & HuR & H1 & H2 & Hd & _ & _
        & HvL & HvR & _ & _ & Hex).
  unfold final. rewrite Hex.
  by eexists rp, uR, x1, x2, d, _, _.
Qed.

(** X8.  Outside the case that lines 150-158 single out (no content on
    the left and an empty revision on the right), the suffixes are not
    touched: the left suffix is the base value of line 149 and the right
    suffix is what lines 133-147 derived. *)
Theorem X8_suffixes_outside_the_special_case G h a v L' R' :
  locals (final G h a) = Some v →
  load (leftCopy a) (final G h a) = Some (ORevision L') →
  load (rightCopy a) (final G h a) = Some (ORevision R') →
  v_lhs v ≠ None ∨ sha R' ≠ Some "" →
  v_lhsSuffix v = leftBase G (v_lhsSha v) (sha L') ∧
  v_rhsSuffix v = v_rhsSuffix0 v.
Proof.
  intros Hv.
  destruct (execute_assembled G h a v Hv)
    as (a' & rp & uL & uR & x1 & x2 & d & -> & _ & _ & _ & _ & _ & _ & _ & _
        & _ & _ & [_ Hl] & _ & Hex).
  unfold final. rewrite Hex. cbn. intros [= <-] [= <-] Hcase. cbn in *.
  unfold leftSuffix in Hl. destruct (v_lhs v) as [l|]; [by injection Hl|].
  destruct Hcase as [?|Hne]; [done|].
  destruct (String.length (revisionAfter G x2 d) =? 0) eqn:E; [|by injection Hl].
  apply length_zero_empty in E. by rewrite E in Hne.
Qed.

(** X9.  The right suffix that lines 133-147 derive when the right side
    has content, or is an uncommitted revision without content: the
    shortened [rhsSha] alone when both sides have content, "added in "
    followed by it when only the right side has, and "deleted" when the
    right side has none and its revision counts as uncommitted. *)
Theorem X9_right_suffix_by_content G h a v R' :
  locals (final G h a) = Some v →
  load (rightCopy a) (final G h a) = Some (ORevision R') →
  (v_rhs v ≠ None → v_lhs v ≠ None →
   v_rhsSuffix0 v = rightBase G (v_rhsSha v)) ∧
  (v_rhs v ≠ None → v_lhs v = None →
   v_rhsSuffix0 v = "added in " +:+ rightBase G (v_rhsSha v)) ∧
  (v_rhs v = None → isUncommitted G (sha R') = true →
   v_rhsSuffix0 v = "deleted").
Proof.
  intros Hv.
  destruct (execute_assembled G h a v Hv)
    as (a' & rp & uL & uR & x1 & x2 & d & -> & _ & _ & _ & _ & _ & _ & _ & _
        & _ & _ & [Hr _] & _ & Hex).
  unfold final. rewrite Hex. cbn. intros [= <-]. cbn.
  rewrite Hr. unfold rightSuffix.
  destruct (v_rhs v) as [r|], (v_lhs v) as [l|]; split_and!; try done.
  - by intros _ ->.
  - by intros _ ->.
Qed.

(** X10.  When neither side comes with a label and both have content,
    the title is the two labels joined by the arrow, each the base name of
    the path of its side followed by its suffix in parentheses when the
    suffix is not empty; the right suffix is the shortened [rhsSha] and
    the left suffix is the base value of line 149. *)
Theorem X10_title_of_two_present_sides G h a v l r :
  title (leftOf h a) = None → title (rightOf h a) = None →
  locals (final G h a) = Some v →
  v_lhs v = Some l → v_rhs v = Some r →
  ∃ uL uR L',
    uri (leftOf h a) = Some uL ∧ uri (rightOf h a) = Some uR ∧
    load (leftCopy a) (final G h a) = Some (ORevision L') ∧
    v_lhsSuffix v = leftBase G (v_lhsSha v) (sha L') ∧
    v_rhsSuffix v = rightBase G (v_rhsSha v) ∧
    v_title v =
      Some (label (basename G (fsPath uL)) (v_lhsSuffix v)
            +:+ " " +:+ ArrowLeftRightLong G +:+ " "
            +:+ label (basename G (fsPath uR)) (v_rhsSuffix v)).
Proof.
  intros HtL HtR Hv Hlhs Hrhs.
  destruct (execute_assembled G h a v Hv)
    as (a' & rp & uL & uR & x1 & x2 & d & -> & _ & HuL & HuR & _ & _ & _ & _ & _
        & _ & _ & [Hr Hl] & Ht & Hex).
  unfold final. rewrite Hex. exists uL, uR. eexists.
  split_and!; [done|done|reflexivity|..]; cbn [sha].
  - rewrite Hlhs in Hl. by injection Hl.
  - rewrite Hlhs in Hl. injection Hl as _ <-. by rewrite Hr, Hlhs, Hrhs.
  - rewrite Ht, HtL, HtR, Hlhs. reflexivity.
Qed.

(** X11.  Labels that come with the request are kept: when both sides
    have one, neither is replaced, and the title is the two joined by the
    arrow, whatever the revisions and the content are. *)
Theorem X11_given_labels_are_kept G h a v t1 t2 :
  title (leftOf h a) = Some t1 → title (rightOf h a) = Some t2 →
  locals (final G h a) = Some v →
  v_title v = Some (t1 +:+ " " +:+ ArrowLeftRightLong G +:+ " " +:+ t2) ∧
  ∃ L' R',
    load (leftCopy a) (final G h a) = Some (ORevision L') ∧
    load (rightCopy a) (final G h a) = Some (ORevision R') ∧
    title L' = Some t1 ∧ title R' = Some t2.
Proof.
  intros HtL HtR Hv.
  destruct (execute_assembled G h a v Hv)
    as (a' & rp & uL & uR & x1 & x2 & d & -> & _ & _ & _ & _ & _ & _ & _ & _
        & _ & _ & _ & Ht & Hex).
  unfold final. rewrite Hex, Ht, HtL, HtR. split; [reflexivity|].
  by eexists _, _.
Qed.

(** X12.  The command does not reject on its own: every exception of
    lines 101-194 is caught, so that it completes normally whenever
    showing the error message does. *)
Theorem X12_rejects_only_with_the_error_message G h a x :
  showGenericErrorMessage G "Unable to open compare" = Ok x →
  ∃ y, (execute G a (enter h)).1 = Ok y.
Proof.
  intros Hm. destruct a as [a|]; [|by eexists].
  destruct (repoPath (request h (Some a))) as [rp|] eqn:Hrepo.
  2: { rewrite execute_copied, Hrepo. by eexists. }
  destruct (execute_later G h a rp Hrepo)
    as [(e & L' & R' & es & _ & -> & _)
       |(uL & uR & v & c1 & c2 & S' & es & _ & _ & _ & _ & _ & _ & ->)];
    cbn [fst]; [by eexists|].
  match goal with |- context [caught G ?out] => destruct out end; cbn; by eexists.
Qed.

(** X13.  When both sides have a location and every lookup is answered,
    the run is the whole pipeline: the two revision lookups one after the
    other, the status lookup if the right revision is concrete, the two
    content requests, both made before the command waits for either, and
    the call to the viewer; after it only the two calls of the [catch]
    block, if the viewer fails.  The command completes with what the
    viewer completes with, or with the completion of the error message. *)
Theorem X13_answered_run_reaches_the_viewer G h a rp uL uR x1 x2 d lhs rhs :
  repoPath (request h (Some a)) = Some rp →
  uri (leftOf h (Some a)) = Some uL → uri (rightOf h (Some a)) = Some uR →
  resolveReference G rp (sha (leftOf h (Some a))) (uri (leftOf h (Some a))) = Ok x1 →
  resolveReference G rp (sha (rightOf h (Some a))) (uri (rightOf h (Some a))) = Ok x2 →
  verdict G rp uR x2 = Ok d →
  getVersionedUri G rp (fsPath uL) (Some x1) = Ok lhs →
  getVersionedUri G rp (fsPath uR) (Some (revisionAfter G x2 d)) = Ok rhs →
  ∃ t,
    let call := ExecuteDiff (handed G rp uL lhs) (handed G rp uR rhs) t
                  (shown (optionsOf h (Some a)) (line (request h (Some a)))) in
    let out := executeDiff G (handed G rp uL lhs) (handed G rp uR rhs) t
                 (shown (optionsOf h (Some a)) (line (request h (Some a)))) in
    trace (final G h (Some a)) =
      pipeline G rp (leftOf h (Some a)) (rightOf h (Some a)) uL uR x1 x2 d lhs rhs call
      ++ caught_events out ∧
    (execute G (Some a) (enter h)).1 = caught G out.
Proof.
  intros Hrepo HuL HuR H1 H2 Hv Hl Hr.
  destruct (execute_run G h a rp uL uR x1 x2 d lhs rhs Hrepo HuL HuR H1 H2 Hv Hl Hr)
    as (v & _ & _ & _ & _ & _ & _ & Hex).
  exists (v_title v). unfold final. by rewrite Hex.
Qed.

(** X14.  A side without location is never shown.  When the request
    names a repository and one of its sides has no [uri], which is the
    case of a side that is missing altogether, the viewer is not called,
    the labels are not assembled, and the command ends with the error
    message. *)
Theorem X14_side_without_location_is_reported G h a rp :
  repoPath (request h (Some a)) = Some rp →
  uri (leftOf h (Some a)) = None ∨ uri (rightOf h (Some a)) = None →
  (execute G (Some a) (enter h)).1 = showGenericErrorMessage G "Unable to open compare" ∧
  quiet (trace (final G h (Some a))) ∧
  locals (final G h (Some a)) = None ∧
  Invoked (ShowGenericErrorMessage "Unable to open compare") ∈ trace (final G h (Some a)).
Proof.
  intros Hrepo Hu. unfold final.
  destruct (execute_later G h a rp Hrepo)
    as [(e & L' & R' & es & _ & -> & _ & _ & _ & _ & Hq)
       |(uL & uR & v & c1 & c2 & S' & es & HuL & HuR & _)].
  - cbn. split_and!; try done.
    + intros l r t o [H|H]%elem_of_app; [by eapply Hq|by eapply reported_quiet].
    + apply elem_of_app. right. unfold reported.
      apply elem_of_cons; right. apply elem_of_cons; by left.
  - destruct Hu; congruence.
Qed.

(** X15.  A rejected revision lookup ends the run at once and nothing is
    written.  When the lookup for the left side is rejected, the lookup
    for the right side is not made; when the one for the right side is
    rejected, the revision the left side resolved to is not stored.  In
    both cases the copies of the two sides still hold the revisions of the
    request, and the exception is logged and reported. *)
Theorem X15_rejected_lookup_stops_the_run G h a rp :
  repoPath (request h (Some a)) = Some rp →
  let L := leftOf h (Some a) in
  let R := rightOf h (Some a) in
  let c1 := ResolveReference rp (sha L) (uri L) in
  let c2 := ResolveReference rp (sha R) (uri R) in
  let unchanged := drafts L R (optionsOf h (Some a)) (Some rp) (line (request h (Some a))) in
  (∀ e, resolveReference G rp (sha L) (uri L) = Thrown e →
        execute G (Some a) (enter h) =
          (showGenericErrorMessage G "Unable to open compare",
           mkState h unchanged None ([Invoked c1; Settled c1] ++ reported e))) ∧
  (∀ x1 e, resolveReference G rp (sha L) (uri L) = Ok x1 →
           resolveReference G rp (sha R) (uri R) = Thrown e →
           execute G (Some a) (enter h) =
             (showGenericErrorMessage G "Unable to open compare",
              mkState h unchanged None
                      ([Invoked c1; Settled c1; Invoked c2; Settled c2] ++ reported e))).
Proof.
  intros Hrepo L R c1 c2 unchanged. subst unchanged.
  split.
  - intros e H1. rewrite execute_copied, Hrepo.
    assert (Hb : body G (Own 3) (Own 0) (Own 1) rp (copied h a) =
              (Thrown e, later (copied h a) L R (optionsOf h (Some a))
                           (repoPath (request h (Some a))) (line (request h (Some a)))
                           None [Invoked c1; Settled c1])).
    { unfold body, mbind, M_bind.
      by rewrite (resolution_rejected G (copied h a) L R _ _ _ rp e eq_refl H1). }
    by rewrite (try_catch_run G _ _ _ _ Hb), Hrepo.
  - intros x1 e H1 H2. rewrite execute_copied, Hrepo.
    assert (Hb : body G (Own 3) (Own 0) (Own 1) rp (copied h a) =
              (Thrown e, later (copied h a) L R (optionsOf h (Some a))
                           (repoPath (request h (Some a))) (line (request h (Some a)))
                           None [Invoked c1; Settled c1; Invoked c2; Settled c2])).
    { unfold body, mbind, M_bind.
      by rewrite (resolution_rejected_right G (copied h a) L R _ _ _ rp x1 e eq_refl H1 H2). }
    by rewrite (try_catch_run G _ _ _ _ Hb), Hrepo.
Qed.

(** X16.  On every request the two revisions are looked up one after the
    other: the lookup for the left side is the first call of the run, the
    lookup for the right side is made once the command has resumed from
    it, and only if it was answered; no other revision lookup is made. *)
Theorem X16_lookups_are_made_in_sequence G h a rp :
  repoPath (request h (Some a)) = Some rp →
  let L := leftOf h (Some a) in
  let R := rightOf h (Some a) in
  let c1 := ResolveReference rp (sha L) (uri L) in
  let c2 := ResolveReference rp (sha R) (uri R) in
  ∃ rest,
    count 0 rest = 0 ∧
    trace (final G h (Some a)) =
      match resolveReference G rp (sha L) (uri L) with
      | Ok _ => [Invoked c1; Settled c1; Invoked c2; Settled c2] ++ rest
      | Thrown _ => [Invoked c1; Settled c1] ++ rest
      end.
Proof.
  intros Hrepo L R c1 c2. unfold final.
  destruct (execute_cases G h a rp Hrepo)
    as [(e & L' & R' & es0 & es1 & es2 & -> & H0 & H1 & H2)
       |(uL & uR & x1 & x2 & d & lhs & rhs & HuL & HuR & H1 & H2 & Hv & Hl & Hr)].
  - exists (es1 ++ es2 ++ reported e). split.
    + rewrite !count_app.
      rewrite (ofRank_counts _ _ _ _ (statusLookup_ofRank _ _ _ _ H1)),
        (ofRank_counts _ _ _ _ H2). done.
    + cbn [snd trace]. unfold lookups in H0. fold L R c1 c2 in H0.
      by destruct (resolveReference G rp (sha L) (uri L)); subst es0.
  - destruct (execute_run G h a rp uL uR x1 x2 d lhs rhs Hrepo HuL HuR H1 H2 Hv Hl Hr)
      as (v & _ & _ & _ & _ & _ & _ & ->).
    cbn [snd trace]. fold L R in H1 |- *. rewrite H1. unfold pipeline.
    eexists. split; [|by rewrite <- !(assoc_L (++))].
    rewrite !count_app.
    rewrite (ofRank_counts _ _ _ _ (statusEvents_ofRank G rp uR x2)).
    unfold settlements.
    match goal with |- context [caught_events ?out] =>
      by destruct (secondSettlesFirst G), out
    end.
Qed.

(** X17.  After lines 92-97 the command creates no object.  The
    invocation ends with the four objects of the copy, or five when no
    argument was passed and line 91 made one: the test of line 172 never
    finds the display options undefined, and the options the viewer is
    given are the contents of the copy that line 96 made. *)
Theorem X17_no_object_is_created_after_the_copies G h a :
  length (own (final G h a)) = match a with Some _ => 4 | None => 5 end ∧
  ∀ left right t o,
    Invoked (ExecuteDiff left right t o) ∈ trace (final G h a) →
    load (Own 2) (final G h a) = Some (OShowOptions o).
Proof.
  split.
  - unfold final. destruct a as [a|]; [|by rewrite execute_undefined].
    destruct (repoPath (request h (Some a))) as [rp|] eqn:Hrepo.
    2: { by rewrite execute_copied, Hrepo. }
    by destruct (execute_later G h a rp Hrepo)
      as [(e & L' & R' & es & _ & -> & _)
         |(uL & uR & v & c1 & c2 & S' & es & _ & _ & _ & _ & _ & _ & ->)].
  - intros left right t o
      (rp & uL & uR & v & _ & _ & _ & Hv & _ & _ & _ & ->)%viewer_called.
    destruct (execute_assembled G h a v Hv)
      as (a' & rp' & uL' & uR' & x1 & x2 & d & -> & _ & _ & _ & _ & _ & _ & _ & _
          & _ & _ & _ & _ & Hex).
    unfold final. by rewrite Hex.
Qed.

(** X18.  The left label never shows the revision the request came with.
    When the labels are assembled, the base value of the left suffix
    (line 149) is the shortened revision that the left side resolved to,
    and the empty string when that is the missing sentinel: the value
    that lines 101 and 109-111 keep in [lhsSha] for this case is not
    used. *)
Theorem X18_left_suffix_shows_the_resolved_revision G h a v L' :
  locals (final G h a) = Some v →
  load (leftCopy a) (final G h a) = Some (ORevision L') →
  ∃ rp x1,
    repoPath (request h a) = Some rp ∧
    resolveReference G rp (sha (leftOf h a)) (uri (leftOf h a)) = Ok x1 ∧
    leftBase G (v_lhsSha v) (sha L') =
      if String.eqb x1 (deletedOrMissingSha G) then ""
      else or_empty (shortenSha G (Some x1) None).
Proof.
  intros Hv.
  destruct (execute_assembled G h a v Hv)
    as (a' & rp & uL & uR & x1 & x2 & d & -> & Hrepo & _ & _ & H1 & _ & _ & _ & _
        & HvL & _ & _ & _ & Hex).
  unfold final. rewrite Hex. cbn. intros [= <-]. exists rp, x1.
  split_and!; try done. cbn [sha].
  rewrite HvL. unfold leftBase, lhsShaAfter, equals.
  by destruct (String.eqb x1 (deletedOrMissingSha G)).
Qed.

(** X19.  A rejected status lookup ends the run before any content is
    requested.  Both revisions have been resolved and stored by then: the
    copies of the two sides hold the resolved revisions, the labels are
    not assembled, and the exception is logged and reported. *)
Theorem X19_rejected_status_lookup_stops_the_run G h a rp uR x1 x2 e :
  repoPath (request h (Some a)) = Some rp →
  let L := leftOf h (Some a) in
  let R := rightOf h (Some a) in
  uri R = Some uR →
  resolveReference G rp (sha L) (uri L) = Ok x1 →
  resolveReference G rp (sha R) (uri R) = Ok x2 →
  verdict G rp uR x2 = Thrown e →
  let c1 := ResolveReference rp (sha L) (uri L) in
  let c2 := ResolveReference rp (sha R) (uri R) in
  let s := GetFileStatusForCommit rp (fsPath uR) (Some x2) in
  execute G (Some a) (enter h) =
    (showGenericErrorMessage G "Unable to open compare",
     mkState h
       (drafts (mkRevision (Some x1) (uri L) (title L))
               (mkRevision (Some x2) (uri R) (title R))
               (optionsOf h (Some a)) (Some rp) (line (request h (Some a))))
       None
       ([Invoked c1; Settled c1; Invoked c2; Settled c2]
        ++ [Invoked s; Settled s] ++ reported e)).
Proof.
  intros Hrepo L R HuR H1 H2 Hv c1 c2 s.
  rewrite execute_copied, Hrepo.
  assert (Hb : body G (Own 3) (Own 0) (Own 1) rp (copied h a) =
            (Thrown e,
             later (copied h a) (mkRevision (Some x1) (uri L) (title L))
               (mkRevision (Some x2) (uri R) (title R))
               (optionsOf h (Some a)) (repoPath (request h (Some a)))
               (line (request h (Some a))) None
               ([Invoked c1; Settled c1; Invoked c2; Settled c2]
                ++ [Invoked s; Settled s]))).
  { unfold body, mbind, M_bind.
    rewrite (resolution_run G (copied h a) L R _ _ _ rp x1 x2 eq_refl H1 H2).
    match goal with |- context [classification G _ _ ?r ?σ] =>
      destruct (classification_verdict_failed G σ
                  (mkRevision (Some x1) (uri L) (title L))
                  (mkRevision (Some x2) (uri R) (title R))
                  (optionsOf h (Some a)) (repoPath (request h (Some a)))
                  (line (request h (Some a))) rp r x2 uR e
                  eq_refl eq_refl HuR Hv) as [_ ->]
    end.
    by rewrite later_later. }
  rewrite (try_catch_run G _ _ _ _ Hb), Hrepo.
  unfold record, later, copied; cbn. by rewrite <- ?(assoc_L (++)).
Qed.

(** X20.  A rejected content request ends the run, but unlike the
    revision lookups the two content requests do not wait for each other:
    both have been made when [Promise.all] rejects.  The viewer is not
    called, and the exception that is logged is the one [Promise.all]
    rejected with. *)
Theorem X20_rejected_content_request_stops_the_run G h a rp uL uR x1 x2 d e :
  repoPath (request h (Some a)) = Some rp →
  let L := leftOf h (Some a) in
  let R := rightOf h (Some a) in
  uri L = Some uL → uri R = Some uR →
  resolveReference G rp (sha L) (uri L) = Ok x1 →
  resolveReference G rp (sha R) (uri R) = Ok x2 →
  verdict G rp uR x2 = Ok d →
  let g1 := GetVersionedUri rp (fsPath uL) (Some x1) in
  let g2 := GetVersionedUri rp (fsPath uR) (Some (revisionAfter G x2 d)) in
  let r1 := getVersionedUri G rp (fsPath uL) (Some x1) in
  let r2 := getVersionedUri G rp (fsPath uR) (Some (revisionAfter G x2 d)) in
  joined (secondSettlesFirst G) r1 r2 = Thrown e →
  let c1 := ResolveReference rp (sha L) (uri L) in
  let c2 := ResolveReference rp (sha R) (uri R) in
  (execute G (Some a) (enter h)).1 = showGenericErrorMessage G "Unable to open compare" ∧
  trace (final G h (Some a)) =
    [Invoked c1; Settled c1; Invoked c2; Settled c2]
    ++ statusEvents G rp uR x2
    ++ [Invoked g1; Invoked g2]
    ++ settlements (secondSettlesFirst G) g1 r1 g2 r2
    ++ reported e.
Proof.
  intros Hrepo L R HuL HuR H1 H2 Hv g1 g2 r1 r2 Hj c1 c2.
  unfold final. rewrite execute_copied, Hrepo.
  assert (Hb : ∃ σ', body G (Own 3) (Own 0) (Own 1) rp (copied h a) = (Thrown e, σ') ∧
            trace σ' = [Invoked c1; Settled c1; Invoked c2; Settled c2]
                       ++ statusEvents G rp uR x2
                       ++ [Invoked g1; Invoked g2]
                       ++ settlements (secondSettlesFirst G) g1 r1 g2 r2).
  { unfold body, mbind, M_bind.
    rewrite (resolution_run G (copied h a) L R _ _ _ rp x1 x2 eq_refl H1 H2).
    match goal with |- context [classification G _ _ ?r ?σ] =>
      rewrite (classification_verdict G σ
                 (mkRevision (Some x1) (uri L) (title L))
                 (mkRevision (Some x2) (uri R) (title R))
                 (optionsOf h (Some a)) (repoPath (request h (Some a)))
                 (line (request h (Some a))) rp r x2 uR d
                 eq_refl eq_refl HuR Hv)
    end.
    cbn [sha uri title locals later]. rewrite later_later.
    unfold presentation, mbind, M_bind.
    match goal with |- context [acquisition G _ _ _ ?σ] =>
      rewrite (acquisition_run G σ
                 (mkRevision (Some x1) (uri L) (title L))
                 (mkRevision (Some (revisionAfter G x2 d)) (uri R) (title R))
                 (optionsOf h (Some a)) (repoPath (request h (Some a)))
                 (line (request h (Some a))) rp uL uR eq_refl HuL HuR)
    end.
    cbn [sha]. fold r1 r2 g1 g2. rewrite Hj.
    eexists. split; [reflexivity|].
    cbn [trace later copied]. by rewrite <- ?(assoc_L (++)). }
  destruct Hb as (σ' & Hb & Htr).
  rewrite (try_catch_run G _ _ _ _ Hb). cbn [fst snd caught caught_events trace record].
  split; [done|]. rewrite Htr. by rewrite <- ?(assoc_L (++)).
Qed.

(** ** The two functions together *)

(** X21.  The request that [getMarkdownCommandArgs] builds from one or
    two commits is complete: it names the repository of the first commit
    and two sides that each have a revision, and it has no label, no line
    and no display options.  The command therefore does not stop at line
    98 on it but starts with the lookup of the left revision; and if it
    gets to the viewer, the viewer is given a title and the active view
    column and nothing else. *)
Theorem X21_request_from_commits_is_complete G commit1 commit2 :
  let r := markdownArgs G (inr commit1) commit2 in
  let h := Request.objects r in
  let a := Some (Caller 0) in
  Request.repoPath r = Some (GitCommit.repoPath commit1) ∧
  Request.line r = None ∧ Request.showOptions r = None ∧
  (∃ s1 u1 s2 u2 rest,
     Request.lhs r = Some (mkRevision (Some s1) u1 None) ∧
     Request.rhs r = Some (mkRevision (Some s2) (Some u2) None) ∧
     trace (final G h a) =
       Invoked (ResolveReference (GitCommit.repoPath commit1) (Some s1) u1)
       :: Settled (ResolveReference (GitCommit.repoPath commit1) (Some s1) u1)
       :: rest) ∧
  ∀ left right t o,
    Invoked (ExecuteDiff left right t o) ∈ trace (final G h a) →
    t ≠ None ∧ o = mkShowOptions (Some Active) None None None.
Proof.
  intros r h a.
  destruct (request_objects r) as (Hrepo & Hln & HL & HR & HS).
  fold h a in Hrepo, Hln, HL, HR, HS.
  assert (Hr : Request.repoPath r = Some (GitCommit.repoPath commit1) ∧
               Request.line r = None ∧ Request.showOptions r = None ∧
               ∃ s1 u1 s2 u2,
                 Request.lhs r = Some (mkRevision (Some s1) u1 None) ∧
                 Request.rhs r = Some (mkRevision (Some s2) (Some u2) None)).
  { subst r. unfold markdownArgs.
    destruct commit2 as [c2|]; [|destruct (GitCommit.isUncommitted commit1)];
      cbn; split_and!; try done; by eexists _, _, _, _. }
  destruct Hr as (Hr1 & Hr2 & Hr3 & s1 & u1 & s2 & u2 & Hl & Hrr).
  rewrite Hr1 in Hrepo. rewrite Hr2 in Hln. rewrite Hr3 in HS.
  rewrite Hl in HL. rewrite Hrr in HR. cbn [default] in HL, HR, HS.
  split_and!; try done.
  - destruct (execute_looks_up G h (Caller 0) _ Hrepo) as [rest Hrest].
    exists s1, u1, s2, u2, rest. split_and!; try done.
    fold a in Hrest. by rewrite HL in Hrest.
  - intros left right t o
      (rp & uL & uR & v & _ & _ & HuR & Hv & _ & _ & -> & ->)%viewer_called.
    rewrite HS, Hln. split; [|done].
    destruct (execute_assembled G h a v Hv)
      as (a' & rp' & uL' & uR' & x1 & x2 & d & _ & _ & _ & _ & _ & _ & _ & _ & _
          & _ & _ & _ & Ht & _).
    rewrite Ht, HR. cbn [title]. rewrite rightLabel_unlabelled.
    apply combinedTitle_right.
Qed.

(** X22.  The request built from the commit that created a file, in a
    repository that answers accordingly: the commit has no previous
    revision, so the left revision is the missing sentinel, which resolves
    to itself and has no content; the right revision resolves to a
    concrete revision at which the file is not reported deleted and has
    content.  Then the viewer is called with the placeholder for the
    missing revision on the left and the content on the right, and the
    title is the label of the right side alone: the base name of the file
    followed by "added in " and the shortened revision in parentheses. *)
Theorem X22_commit_that_creates_a_file G commit1 u x2 found r :
  GitCommit.isUncommitted commit1 = false →
  GitCommit.previousSha commit1 = None →
  GitCommit.previousUri commit1 = Some u →
  let rp := GitCommit.repoPath commit1 in
  let s := deletedOrMissingSha G in
  let file := fsPath (GitCommit.uri commit1) in
  resolveReference G rp (Some s) (Some u) = Ok s →
  resolveReference G rp (Some (GitCommit.sha commit1)) (Some (GitCommit.uri commit1))
    = Ok x2 →
  x2 ≠ "" → x2 ≠ s →
  getFileStatusForCommit G rp file (Some x2) = Ok found →
  deleted found = false →
  getVersionedUri G rp (fsPath u) (Some s) = Ok None →
  getVersionedUri G rp file (Some x2) = Ok (Some r) →
  let h := Request.objects (markdownArgs G (inr commit1) None) in
  let t := Some (label (basename G file) ("added in " +:+ rightBase G (Some x2))) in
  let o := mkShowOptions (Some Active) None None None in
  let left := toRevisionUri G s (fsPath u) rp in
  Invoked (ExecuteDiff left r t o) ∈ trace (final G h (Some (Caller 0))) ∧
  (execute G (Some (Caller 0)) (enter h)).1 = caught G (executeDiff G left r t o).
Proof.
  intros Hunc Hprev Hu rp s file H1 H2 Hne Hns Hf Hd Hl Hr h t o left.
  destruct (request_objects (markdownArgs G (inr commit1) None))
    as (Hrepo & Hln & HL & HR & HS).
  fold h in Hrepo, Hln, HL, HR, HS.
  unfold markdownArgs in Hrepo, Hln, HL, HR, HS.
  rewrite Hunc in *. rewrite Hprev, Hu in HL.
  cbn [Request.repoPath Request.line Request.lhs Request.rhs Request.showOptions default]
    in Hrepo, Hln, HL, HR, HS.
  assert (Hv : verdict G rp (GitCommit.uri commit1) x2 = Ok (Some false)).
  { unfold verdict. fold file. rewrite Hf, Hd.
    by rewrite (proj2 (concrete_spec G x2) (conj Hne Hns)). }
  destruct (execute_run G h (Caller 0) rp u (GitCommit.uri commit1) s x2 (Some false)
              None (Some r) Hrepo)
    as (v & HvL & HvR & Hvl & Hvr & [Hs0 Hsl] & Ht & Hex);
    rewrite ?HL, ?HR; try done.
  assert (Htitle : v_title v = t).
  { rewrite Ht, HL, HR. rewrite HR in HvR. cbn [title sha] in *.
    rewrite Hvl, Hvr in Hs0, Hsl. rewrite HvR in Hs0. cbn in Hs0, Hsl.
    destruct (String.length x2 =? 0) eqn:E; [by apply length_zero_empty in E|].
    injection Hsl as <- <-. rewrite Hs0.
    unfold leftBase, equals. fold s. rewrite String.eqb_refl. cbn [negb].
    rewrite rightLabel_unlabelled. unfold id. cbn [title].
    rewrite (proj2 (leftLabel_unlabelled G u None "") (conj eq_refl eq_refl)).
    by rewrite combinedTitle_alone. }
  rewrite Htitle, HS, Hln in Hex. unfold final. rewrite Hex.
  split; [|done]. cbn [snd trace fst]. unfold pipeline.
  rewrite !elem_of_app. left. do 4 right. apply elem_of_cons. by left.
Qed.

(** X23.  The request built from the uncommitted changes of a file
    compares HEAD with the working copy at the same location.  When the
    working copy resolves to the empty revision, no status is looked up,
    and when both sides then have content the viewer is called with the
    two content references. *)
Theorem X23_uncommitted_changes_against_HEAD G commit1 x1 l r :
  GitCommit.isUncommitted commit1 = true →
  let rp := GitCommit.repoPath commit1 in
  let u := GitCommit.uri commit1 in
  resolveReference G rp (Some "HEAD") (Some u) = Ok x1 →
  resolveReference G rp (Some "") (Some u) = Ok "" →
  getVersionedUri G rp (fsPath u) (Some x1) = Ok (Some l) →
  getVersionedUri G rp (fsPath u) (Some "") = Ok (Some r) →
  let h := Request.objects (markdownArgs G (inr commit1) None) in
  let tr := trace (final G h (Some (Caller 0))) in
  take 4 tr = [Invoked (ResolveReference rp (Some "HEAD") (Some u));
               Settled (ResolveReference rp (Some "HEAD") (Some u));
               Invoked (ResolveReference rp (Some "") (Some u));
               Settled (ResolveReference rp (Some "") (Some u))] ∧
  count 1 tr = 0 ∧
  ∃ t, Invoked (ExecuteDiff l r (Some t) (mkShowOptions (Some Active) None None None))
         ∈ tr.
Proof.
  intros Hunc rp u H1 H2 Hl Hr h tr. subst tr.
  destruct (request_objects (markdownArgs G (inr commit1) None))
    as (Hrepo & Hln & HL & HR & HS).
  fold h in Hrepo, Hln, HL, HR, HS.
  unfold markdownArgs in Hrepo, Hln, HL, HR, HS.
  rewrite Hunc in *.
  cbn [Request.repoPath Request.line Request.lhs Request.rhs Request.showOptions default]
    in Hrepo, Hln, HL, HR, HS.
  assert (Hv : verdict G rp u "" = Ok None) by done.
  destruct (execute_run G h (Caller 0) rp u u x1 "" None (Some l) (Some r) Hrepo)
    as (v & _ & _ & _ & _ & _ & Ht & Hex);
    rewrite ?HL, ?HR; try done.
  rewrite HS, Hln in Hex. unfold final. rewrite Hex. cbn [snd trace].
  rewrite HL, HR in *. cbn [title sha uri] in *.
  rewrite rightLabel_unlabelled in Ht.
  destruct (v_title v) as [t|] eqn:Etitle.
  2: { symmetry in Ht. by apply combinedTitle_right in Ht. }
  unfold pipeline, statusEvents.
  change (concrete G "") with false. cbn [app take handed revisionAfter].
  split_and!; [done| |].
  - unfold count. cbn [invocations].
    unfold settlements. destruct (secondSettlesFirst G), (executeDiff _ _ _ _ _); done.
  - exists t. do 6 (apply elem_of_cons; right).
    unfold settlements. destruct (secondSettlesFirst G);
      do 2 (apply elem_of_cons; right); apply elem_of_cons; by left.
Qed.

(** ** The further properties on concrete runs *)

(** X1 on a request with display options and a line. *)
Lemma X1_witness :
  let h := Request.objects Sample.labelled in
  let a := Some (Caller 0) in
  let o := mkShowOptions (Some Beside) None (Some true) (Some (mkRange 12 0 12 0)) in
  o = shown (optionsOf h a) (line (request h a)) ∧
  viewColumn o = Some (default Active (viewColumn (optionsOf h a))) ∧
  preserveFocus o = preserveFocus (optionsOf h a) ∧
  preview o = preview (optionsOf h a) ∧
  (∀ n, line (request h a) = Some n → n ≠ 0%N →
        selection o = Some (mkRange n 0 n 0)) ∧
  (line (request h a) = None ∨ line (request h a) = Some 0%N →
   selection o = selection (optionsOf h a)).
Proof.
  cbv zeta.
  apply (X1_viewer_is_given_the_display_options Double.plain
           (Request.objects Sample.labelled) (Some (Caller 0))
           (Double.revisionUri "HEAD" Double.path "/repo")
           (Double.file Double.path) (Some "theirs ↔ mine")).
  among.
Defined.

(** X5 on the request that compares a commit with a revision in which
    the file is missing. *)
Lemma X5_witness :
  let G := Double.plain in
  let h := Double.introduced in
  let a := Some (Caller 0) in
  ∃ uR x,
    repoPath (request h a) = Some "/repo" ∧
    uri (rightOf h a) = Some uR ∧ Double.path = fsPath uR ∧
    resolveReference G "/repo" (sha (rightOf h a)) (uri (rightOf h a)) = Ok x ∧
    Some Double.head = Some x ∧ x ≠ "" ∧ x ≠ deletedOrMissingSha G.
Proof.
  cbv zeta.
  apply (X5_status_is_looked_up_at_the_resolved_revision Double.plain
           Double.introduced (Some (Caller 0)) "/repo" Double.path (Some Double.head)).
  among.
Defined.

(** X6 on the request that compares the working copy with HEAD. *)
Lemma X6_witness :
  let G := Double.plain in
  let h := Double.working in
  let a := Some (Caller 0) in
  let v := Double.localsOf G h in
  ∃ rp uL uR L' R',
    repoPath (request h a) = Some rp ∧
    uri (leftOf h a) = Some uL ∧ uri (rightOf h a) = Some uR ∧
    load (leftCopy a) (final G h a) = Some (ORevision L') ∧
    load (rightCopy a) (final G h a) = Some (ORevision R') ∧
    getVersionedUri G rp (fsPath uL) (sha L') = Ok (v_lhs v) ∧
    getVersionedUri G rp (fsPath uR) (sha R') = Ok (v_rhs v).
Proof.
  cbv zeta.
  apply (X6_content_is_requested_for_the_final_revisions Double.plain Double.working
           (Some (Caller 0)) (Double.localsOf Double.plain Double.working)).
  evaluated.
Defined.

(** X7 on the request that compares the working copy with HEAD, in a
    repository where the working copy resolves to a commit at which the
    file is reported deleted. *)
Lemma X7_witness :
  let G := Double.deleting in
  let h := Double.working in
  let a := Some (Caller 0) in
  let v := Double.localsOf G h in
  ∃ rp uR x1 x2 d L' R',
    repoPath (request h a) = Some rp ∧ uri (rightOf h a) = Some uR ∧
    resolveReference G rp (sha (leftOf h a)) (uri (leftOf h a)) = Ok x1 ∧
    resolveReference G rp (sha (rightOf h a)) (uri (rightOf h a)) = Ok x2 ∧
    verdict G rp uR x2 = Ok d ∧
    load (leftCopy a) (final G h a) = Some (ORevision L') ∧
    load (rightCopy a) (final G h a) = Some (ORevision R') ∧
    sha L' = Some x1 ∧
    sha R' = Some (revisionAfter G x2 d) ∧
    v_lhsSha v = lhsShaAfter G (sha (leftOf h a)) x1 ∧
    v_rhsSha v = rhsShaAfter (sha (rightOf h a)) x2 d.
Proof.
  cbv zeta.
  apply (X7_revisions_after_the_lookups Double.deleting Double.working
           (Some (Caller 0)) (Double.localsOf Double.deleting Double.working)).
  evaluated.
Defined.

(** X8 on the request that compares the working copy with HEAD: both
    sides have content. *)
Lemma X8_witness :
  let G := Double.plain in
  let h := Double.working in
  let v := Double.localsOf G h in
  v_lhsSuffix v = leftBase G (v_lhsSha v) (sha (Double.leftAfter G h)) ∧
  v_rhsSuffix v = v_rhsSuffix0 v.
Proof.
  cbv zeta.
  apply (X8_suffixes_outside_the_special_case Double.plain Double.working
           (Some (Caller 0)) (Double.localsOf Double.plain Double.working)
           (Double.leftAfter Double.plain Double.working)
           (Double.rightAfter Double.plain Double.working));
    try evaluated.
  left. vm_compute. discriminate.
Defined.

(** X9 on the request that compares a commit with a revision in which
    the file is missing. *)
Lemma X9_witness :
  let G := Double.plain in
  let h := Double.introduced in
  let v := Double.localsOf G h in
  (v_rhs v ≠ None → v_lhs v ≠ None →
   v_rhsSuffix0 v = rightBase G (v_rhsSha v)) ∧
  (v_rhs v ≠ None → v_lhs v = None →
   v_rhsSuffix0 v = "added in " +:+ rightBase G (v_rhsSha v)) ∧
  (v_rhs v = None → isUncommitted G (sha (Double.rightAfter G h)) = true →
   v_rhsSuffix0 v = "deleted").
Proof.
  cbv zeta.
  apply (X9_right_suffix_by_content Double.plain Double.introduced
           (Some (Caller 0)) (Double.localsOf Double.plain Double.introduced)
           (Double.rightAfter Double.plain Double.introduced)); evaluated.
Defined.

(** X10 on the request that compares the working copy with HEAD. *)
Lemma X10_witness :
  let G := Double.plain in
  let h := Double.working in
  let a := Some (Caller 0) in
  let v := Double.localsOf G h in
  ∃ uL uR L',
    uri (leftOf h a) = Some uL ∧ uri (rightOf h a) = Some uR ∧
    load (leftCopy a) (final G h a) = Some (ORevision L') ∧
    v_lhsSuffix v = leftBase G (v_lhsSha v) (sha L') ∧
    v_rhsSuffix v = rightBase G (v_rhsSha v) ∧
    v_title v =
      Some (label (basename G (fsPath uL)) (v_lhsSuffix v)
            +:+ " " +:+ ArrowLeftRightLong G +:+ " "
            +:+ label (basename G (fsPath uR)) (v_rhsSuffix v)).
Proof.
  cbv zeta.
  apply (X10_title_of_two_present_sides Double.plain Double.working
           (Some (Caller 0)) (Double.localsOf Double.plain Double.working)
           (Double.revisionUri "HEAD" Double.path "/repo")
           (Double.file Double.path)); evaluated.
Defined.

(** X11 on a request with two labels. *)
Lemma X11_witness :
  let G := Double.plain in
  let h := Request.objects Sample.labelled in
  let a := Some (Caller 0) in
  let v := Double.localsOf G h in
  v_title v = Some ("theirs" +:+ " " +:+ ArrowLeftRightLong G +:+ " " +:+ "mine") ∧
  ∃ L' R',
    load (leftCopy a) (final G h a) = Some (ORevision L') ∧
    load (rightCopy a) (final G h a) = Some (ORevision R') ∧
    title L' = Some "theirs" ∧ title R' = Some "mine".
Proof.
  cbv zeta.
  apply (X11_given_labels_are_kept Double.plain (Request.objects Sample.labelled)
           (Some (Caller 0))
           (Double.localsOf Double.plain (Request.objects Sample.labelled))
           "theirs" "mine"); evaluated.
Defined.

(** X12 with a viewer that fails. *)
Lemma X12_witness :
  ∃ y, (execute Double.blind (Some (Caller 0)) (enter Double.working)).1 = Ok y.
Proof.
  apply (X12_rejects_only_with_the_error_message Double.blind Double.working
           (Some (Caller 0)) None).
  reflexivity.
Defined.

(** X13 on the request that compares the working copy with HEAD. *)
Lemma X13_witness :
  let G := Double.plain in
  let h := Double.working in
  let a := Caller 0 in
  let u := Double.file Double.path in
  let lhs := Some (Double.revisionUri "HEAD" Double.path "/repo") in
  let rhs := Some u in
  ∃ t,
    let call := ExecuteDiff (handed G "/repo" u lhs) (handed G "/repo" u rhs) t
                  (shown (optionsOf h (Some a)) (line (request h (Some a)))) in
    let out := executeDiff G (handed G "/repo" u lhs) (handed G "/repo" u rhs) t
                 (shown (optionsOf h (Some a)) (line (request h (Some a)))) in
    trace (final G h (Some a)) =
      pipeline G "/repo" (leftOf h (Some a)) (rightOf h (Some a)) u u "HEAD" "" None
               lhs rhs call
      ++ caught_events out ∧
    (execute G (Some a) (enter h)).1 = caught G out.
Proof.
  cbv zeta.
  apply (X13_answered_run_reaches_the_viewer Double.plain Double.working (Caller 0)
           "/repo" (Double.file Double.path) (Double.file Double.path) "HEAD" "" None);
    evaluated.
Defined.

(** X14 on a request whose right side has no location. *)
Lemma X14_witness :
  let G := Double.plain in
  let h := Request.objects Sample.unlocated in
  let a := Some (Caller 0) in
  (execute G a (enter h)).1 = showGenericErrorMessage G "Unable to open compare" ∧
  quiet (trace (final G h a)) ∧
  locals (final G h a) = None ∧
  Invoked (ShowGenericErrorMessage "Unable to open compare") ∈ trace (final G h a).
Proof.
  cbv zeta.
  apply (X14_side_without_location_is_reported Double.plain
           (Request.objects Sample.unlocated) (Caller 0) "/repo"); [evaluated|].
  right. evaluated.
Defined.

(** X15 in a repository that cannot be read. *)
Lemma X15_witness :
  let G := Double.broken in
  let h := Double.working in
  let a := Caller 0 in
  let L := leftOf h (Some a) in
  let R := rightOf h (Some a) in
  let c1 := ResolveReference "/repo" (sha L) (uri L) in
  let c2 := ResolveReference "/repo" (sha R) (uri R) in
  let unchanged :=
    drafts L R (optionsOf h (Some a)) (Some "/repo") (line (request h (Some a))) in
  (∀ e, resolveReference G "/repo" (sha L) (uri L) = Thrown e →
        execute G (Some a) (enter h) =
          (showGenericErrorMessage G "Unable to open compare",
           mkState h unchanged None ([Invoked c1; Settled c1] ++ reported e))) ∧
  (∀ x1 e, resolveReference G "/repo" (sha L) (uri L) = Ok x1 →
           resolveReference G "/repo" (sha R) (uri R) = Thrown e →
           execute G (Some a) (enter h) =
             (showGenericErrorMessage G "Unable to open compare",
              mkState h unchanged None
                      ([Invoked c1; Settled c1; Invoked c2; Settled c2] ++ reported e))).
Proof.
  cbv zeta.
  apply (X15_rejected_lookup_stops_the_run Double.broken Double.working (Caller 0) "/repo").
  evaluated.
Defined.

(** X16 in a repository that cannot be read. *)
Lemma X16_witness :
  let G := Double.broken in
  let h := Double.working in
  let a := Caller 0 in
  let L := leftOf h (Some a) in
  let R := rightOf h (Some a) in
  let c1 := ResolveReference "/repo" (sha L) (uri L) in
  let c2 := ResolveReference "/repo" (sha R) (uri R) in
  ∃ rest,
    count 0 rest = 0 ∧
    trace (final G h (Some a)) =
      match resolveReference G "/repo" (sha L) (uri L) with
      | Ok _ => [Invoked c1; Settled c1; Invoked c2; Settled c2] ++ rest
      | Thrown _ => [Invoked c1; Settled c1] ++ rest
      end.
Proof.
  cbv zeta.
  apply (X16_lookups_are_made_in_sequence Double.broken Double.working (Caller 0) "/repo").
  evaluated.
Defined.

(** X18 on the request that compares the working copy with a revision in
    which the file is missing. *)
Lemma X18_witness :
  let G := Double.plain in
  let h := Double.added in
  let a := Some (Caller 0) in
  let v := Double.localsOf G h in
  ∃ rp x1,
    repoPath (request h a) = Some rp ∧
    resolveReference G rp (sha (leftOf h a)) (uri (leftOf h a)) = Ok x1 ∧
    leftBase G (v_lhsSha v) (sha (Double.leftAfter G h)) =
      if String.eqb x1 (deletedOrMissingSha G) then ""
      else or_empty (shortenSha G (Some x1) None).
Proof.
  cbv zeta.
  apply (X18_left_suffix_shows_the_resolved_revision Double.plain Double.added
           (Some (Caller 0)) (Double.localsOf Double.plain Double.added)
           (Double.leftAfter Double.plain Double.added)); evaluated.
Defined.

Example unreadable_status :
  verdict Sample.statusless "/repo" (Double.file Double.path) Double.head
    = Thrown (Failure "fatal: bad object").
Proof. evaluated. Qed.

(** X19 on the request that compares a commit with a revision in which
    the file is missing, when the status cannot be read. *)
Lemma X19_witness :
  let G := Sample.statusless in
  let h := Double.introduced in
  let a := Caller 0 in
  let L := leftOf h (Some a) in
  let R := rightOf h (Some a) in
  let c1 := ResolveReference "/repo" (sha L) (uri L) in
  let c2 := ResolveReference "/repo" (sha R) (uri R) in
  let s := GetFileStatusForCommit "/repo" (fsPath (Double.file Double.path))
             (Some Double.head) in
  execute G (Some a) (enter h) =
    (showGenericErrorMessage G "Unable to open compare",
     mkState h
       (drafts (mkRevision (Some Double.sentinel) (uri L) (title L))
               (mkRevision (Some Double.head) (uri R) (title R))
               (optionsOf h (Some a)) (Some "/repo") (line (request h (Some a))))
       None
       ([Invoked c1; Settled c1; Invoked c2; Settled c2]
        ++ [Invoked s; Settled s] ++ reported (Failure "fatal: bad object"))).
Proof.
  cbv zeta.
  apply (X19_rejected_status_lookup_stops_the_run Sample.statusless
           Double.introduced (Caller 0) "/repo" (Double.file Double.path)
           Double.sentinel Double.head (Failure "fatal: bad object")); evaluated.
Defined.

(** X20 on the request that compares the working copy with HEAD, when no
    content can be read. *)
Lemma X20_witness :
  let G := Sample.contentless in
  let h := Double.working in
  let a := Caller 0 in
  let L := leftOf h (Some a) in
  let R := rightOf h (Some a) in
  let u := Double.file Double.path in
  let g1 := GetVersionedUri "/repo" (fsPath u) (Some "HEAD") in
  let g2 := GetVersionedUri "/repo" (fsPath u) (Some (revisionAfter G "" None)) in
  let r1 := getVersionedUri G "/repo" (fsPath u) (Some "HEAD") in
  let r2 := getVersionedUri G "/repo" (fsPath u) (Some (revisionAfter G "" None)) in
  let c1 := ResolveReference "/repo" (sha L) (uri L) in
  let c2 := ResolveReference "/repo" (sha R) (uri R) in
  (execute G (Some a) (enter h)).1 = showGenericErrorMessage G "Unable to open compare" ∧
  trace (final G h (Some a)) =
    [Invoked c1; Settled c1; Invoked c2; Settled c2]
    ++ statusEvents G "/repo" u ""
    ++ [Invoked g1; Invoked g2]
    ++ settlements (secondSettlesFirst G) g1 r1 g2 r2
    ++ reported (Failure "fatal: cannot read").
Proof.
  cbv zeta.
  apply (X20_rejected_content_request_stops_the_run Sample.contentless
           Double.working (Caller 0) "/repo" (Double.file Double.path)
           (Double.file Double.path) "HEAD" "" None (Failure "fatal: cannot read"));
    evaluated.
Defined.

(** X22 on the commit that created the file. *)
Lemma X22_witness :
  let G := Double.plain in
  let h := Request.objects (markdownArgs G (inr Sample.created) None) in
  let t := Some (label (basename G Double.path)
                       ("added in " +:+ rightBase G (Some Double.head))) in
  let o := mkShowOptions (Some Active) None None None in
  let left := toRevisionUri G (deletedOrMissingSha G) Double.path "/repo" in
  let right := Double.revisionUri Double.head Double.path "/repo" in
  Invoked (ExecuteDiff left right t o) ∈ trace (final G h (Some (Caller 0))) ∧
  (execute G (Some (Caller 0)) (enter h)).1 = caught G (executeDiff G left right t o).
Proof.
  cbv zeta.
  apply (X22_commit_that_creates_a_file Double.plain Sample.created
           (Double.file Double.path) Double.head
           (Some (mkStatus "M" Double.path))
           (Double.revisionUri Double.head Double.path "/repo"));
    try evaluated; vm_compute; discriminate.
Defined.

(** X23 on the uncommitted changes of the file. *)
Lemma X23_witness :
  let G := Double.plain in
  let u := Double.file Double.path in
  let h := Request.objects (markdownArgs G (inr Sample.edited) None) in
  let tr := trace (final G h (Some (Caller 0))) in
  take 4 tr = [Invoked (ResolveReference "/repo" (Some "HEAD") (Some u));
               Settled (ResolveReference "/repo" (Some "HEAD") (Some u));
               Invoked (ResolveReference "/repo" (Some "") (Some u));
               Settled (ResolveReference "/repo" (Some "") (Some u))] ∧
  count 1 tr = 0 ∧
  ∃ t, Invoked (ExecuteDiff (Double.revisionUri "HEAD" Double.path "/repo") u
                  (Some t) (mkShowOptions (Some Active) None None None))
         ∈ tr.
Proof.
  cbv zeta.
  apply (X23_uncommitted_changes_against_HEAD Double.plain Sample.edited "HEAD"
           (Double.revisionUri "HEAD" Double.path "/repo") (Double.file Double.path));
    evaluated.
Defined.
